(** * Semantic highlighting overlay cache (Monaco) and its neighbours

    A shallow embedding of
    [packages/monaco/src/browser/monaco-semantic-highlighting-service.ts]:
    the range merge ([mergeRanges]), the style resolution ([toOptions],
    [toDecoration]) and the per-document cache with its close subscriptions
    ([decorate], [deleteDecorations], [dispose]); and of three smaller
    pieces: the resource provider ([DefaultResourceProvider.get]), the
    storage service ([LocalStorageService]) and the history of remote
    servers kept through it ([ElectronRemoteContribution]). *)

From stdpp Require Import base gmap sets list strings pretty.

Open Scope string_scope.
Open Scope list_scope.

(** ** Data model *)

(** [Position]: line and character index, numbers that the service never
    tests for a sign; here integers. *)
Record Position := { line : Z; character : Z }.

(** [Range] of the editor: a start and an end position. *)
Record Range := { r_start : Position; r_end : Position }.

(** [SemanticHighlightingRange]: a range with its scopes, the narrowest
    first. *)
Record SemanticHighlightingRange := {
  start : Position;
  end_ : Position;
  scopes : list string
}.

(** [EditorDecorationOptions]: only [inlineClassName] is ever set here; the
    object literal [{}] leaves it absent. *)
Record EditorDecorationOptions := { inlineClassName : option string }.

Record EditorDecoration := {
  range : Range;
  options : EditorDecorationOptions
}.

(** The part of [ITextModel] the service reads. *)
Record ITextModel := { getLineCount : Z }.

(** Helper tuple with the decoration ids and the raw highlighting ranges. *)
Module DecorationWithRanges.
Record t := {
  decorations : list string;
  ranges : list SemanticHighlightingRange
}.

Definition EMPTY : t := {| decorations := []; ranges := [] |}.
End DecorationWithRanges.

(** ** Range merge *)

(** [r.start.line] *)
Definition start_line (r : SemanticHighlightingRange) : Z := line (start r).

(** [mergeRanges(model, oldRanges, newRanges)]: the affected lines are a
    [Set] of the start lines of the new ranges; the old ranges on an affected
    line or past the line count are dropped, the new ranges appended. *)
Definition mergeRanges (model : ITextModel)
    (oldRanges newRanges : list SemanticHighlightingRange)
    : list SemanticHighlightingRange :=
  let affectedLines : gset Z := list_to_set (start_line <$> newRanges) in
  let lineCount := getLineCount model in
  filter (λ r, (start_line r ∉ affectedLines) ∧ (start_line r < lineCount)%Z) oldRanges
    ++ newRanges.

(** The merge as the specification words it, by a scan of [newRanges] for
    every old range. *)
Definition starts_in (newRanges : list SemanticHighlightingRange) (l : Z) : bool :=
  existsb (λ n, Z.eqb (start_line n) l) newRanges.

Fixpoint retained (oldRanges newRanges : list SemanticHighlightingRange)
    (totalLineCount : Z) : list SemanticHighlightingRange :=
  match oldRanges with
  | [] => []
  | r :: rest =>
      if negb (starts_in newRanges (start_line r)) && Z.ltb (start_line r) totalLineCount
      then r :: retained rest newRanges totalLineCount
      else retained rest newRanges totalLineCount
  end.

Definition merge_spec (oldRanges newRanges : list SemanticHighlightingRange)
    (totalLineCount : Z) : list SemanticHighlightingRange :=
  retained oldRanges newRanges totalLineCount ++ newRanges.

(** The bounds filter of the specification: start line within
    [[0, totalLineCount)]. *)
Fixpoint bounds_filter (R : list SemanticHighlightingRange) (N : Z)
    : list SemanticHighlightingRange :=
  match R with
  | [] => []
  | r :: rest =>
      if Z.leb 0 (start_line r) && Z.ltb (start_line r) N
      then r :: bounds_filter rest N
      else bounds_filter rest N
  end.

(** The filter the code applies when no line is affected: start line below
    the line count, with no test from below. *)
Fixpoint below_filter (R : list SemanticHighlightingRange) (N : Z)
    : list SemanticHighlightingRange :=
  match R with
  | [] => []
  | r :: rest =>
      if Z.ltb (start_line r) N
      then r :: below_filter rest N
      else below_filter rest N
  end.

Definition mkRange (l c l' c' : Z) (s : list string) : SemanticHighlightingRange :=
  {| start := {| line := l; character := c |};
     end_ := {| line := l'; character := c' |};
     scopes := s |}.


(** ** The host: editors, their close notification and the decoration API *)

(** A text editor of the editor manager; [instanceof MonacoEditor] is the
    test on the constructor. *)
Inductive TextEditor :=
  | MonacoEditor (id : nat)
  | OtherEditor (id : nat).

#[global] Instance TextEditor_eq_dec : EqDecision TextEditor.
Proof. solve_decision. Defined.

Record EditorWidget := { editor : TextEditor }.

Record URI := { toString : string }.

(** The closure [() => this.deleteDecorations(key, editor)] with the two
    variables it captures. *)
Record Listener := { l_key : string; l_editor : TextEditor }.

(** The [Disposable] that [editor.onDispose(listener)] returns: the identity
    of one registration. *)
Definition Disposable := nat.

Record Registration := {
  reg_id : Disposable;
  reg_editor : TextEditor;
  reg_listener : Listener
}.

(** The argument of [deltaDecorations]. *)
Record DeltaDecorationParams := {
  newDecorations : list EditorDecoration;
  oldDecorations : list string
}.

(** [TokenTheme]: [match(undefined, scope)] gives the token metadata. *)
Record TokenTheme := { match_ : string → Z }.

(** The state the service runs in: its two maps, and what it reads from and
    does to its collaborators. *)
Record World := {
  (* this.decorations *)
  decorations : gmap string DecorationWithRanges.t;
  (* this.toDisposeOnEditorClose *)
  toDisposeOnEditorClose : gmap string Disposable;
  (* editorManager.getByUri, by the string of the URI *)
  editorManager : gmap string EditorWidget;
  (* editor.getControl().getModel() *)
  getModel : TextEditor → ITextModel;
  (* the theme of the standalone theme service *)
  tokenTheme : TokenTheme;
  (* the listeners registered with onDispose, oldest first *)
  onDisposeListeners : list Registration;
  nextRegistration : nat;
  (* every deltaDecorations call made so far, oldest first *)
  calls : list (TextEditor * DeltaDecorationParams)
}.

Definition set_decorations (f : gmap string DecorationWithRanges.t → gmap string DecorationWithRanges.t)
    (w : World) : World :=
  {| decorations := f (decorations w);
     toDisposeOnEditorClose := toDisposeOnEditorClose w;
     editorManager := editorManager w;
     getModel := getModel w;
     tokenTheme := tokenTheme w;
     onDisposeListeners := onDisposeListeners w;
     nextRegistration := nextRegistration w;
     calls := calls w |}.

Definition set_toDisposeOnEditorClose (f : gmap string Disposable → gmap string Disposable)
    (w : World) : World :=
  {| decorations := decorations w;
     toDisposeOnEditorClose := f (toDisposeOnEditorClose w);
     editorManager := editorManager w;
     getModel := getModel w;
     tokenTheme := tokenTheme w;
     onDisposeListeners := onDisposeListeners w;
     nextRegistration := nextRegistration w;
     calls := calls w |}.

Definition set_onDisposeListeners (f : list Registration → list Registration)
    (w : World) : World :=
  {| decorations := decorations w;
     toDisposeOnEditorClose := toDisposeOnEditorClose w;
     editorManager := editorManager w;
     getModel := getModel w;
     tokenTheme := tokenTheme w;
     onDisposeListeners := f (onDisposeListeners w);
     nextRegistration := nextRegistration w;
     calls := calls w |}.

(** [editorManager.getByUri(uri)] *)
Definition getByUri (uri : URI) (w : World) : option EditorWidget :=
  editorManager w !! toString uri.

(** Modelled from the spec: the close notification channel
    [onViewClosed(view, callback) -> subscriptionHandle] ([editor.onDispose]
    in the code, declared outside this file). A registration is appended to
    the listeners and its identity returned as the subscription handle. *)
Definition onDispose (e : TextEditor) (listener : Listener) (w : World)
    : Disposable * World :=
  let d := nextRegistration w in
  (d,
   {| decorations := decorations w;
      toDisposeOnEditorClose := toDisposeOnEditorClose w;
      editorManager := editorManager w;
      getModel := getModel w;
      tokenTheme := tokenTheme w;
      onDisposeListeners :=
        onDisposeListeners w ++ [{| reg_id := d; reg_editor := e; reg_listener := listener |}];
      nextRegistration := S d;
      calls := calls w |}).

(** Modelled from the spec: [closeSubscription] is a cancellable
    registration; [disposable.dispose()] cancels it, that is, takes the
    listener out of the channel. It runs no listener. *)
Definition Disposable_dispose (d : Disposable) (w : World) : World :=
  set_onDisposeListeners (filter (λ r, reg_id r ≠ d)) w.

Section Service.

(** [editor.deltaDecorations] answers with the ids of the decorations it
    added; which ids is the editor's business: here any function of the
    editor, the calls it has seen and the request. *)
Variable deltaDecorationIds :
  TextEditor → list (TextEditor * DeltaDecorationParams) → DeltaDecorationParams → list string.

(** [TokenMetadata.getClassNameFromMetadata] *)
Variable getClassNameFromMetadata : Z → string.

(** [editor.deltaDecorations(params)]: the call is recorded, the new ids
    returned. *)
Definition deltaDecorations (e : TextEditor) (params : DeltaDecorationParams)
    (w : World) : list string * World :=
  (deltaDecorationIds e (calls w) params,
   {| decorations := decorations w;
      toDisposeOnEditorClose := toDisposeOnEditorClose w;
      editorManager := editorManager w;
      getModel := getModel w;
      tokenTheme := tokenTheme w;
      onDisposeListeners := onDisposeListeners w;
      nextRegistration := nextRegistration w;
      calls := calls w ++ [(e, params)] |}).

(** ** Style resolution *)

(** A [for (const x of xs) { ... }] whose body may [return]: the first
    iteration that returns ends the loop. *)
Fixpoint for_of_return {A B : Type} (body : A → option B) (xs : list A) : option B :=
  match xs with
  | [] => None
  | x :: rest =>
      match body x with
      | Some b => Some b
      | None => for_of_return body rest
      end
  end.

(** [toOptions(scopes)]: the loop body returns in its first iteration; after
    the loop, [{}]. *)
Definition toOptions (theme : TokenTheme) (scopes : list string) : EditorDecorationOptions :=
  match
    for_of_return
      (λ scope,
         let metadata := match_ theme scope in
         let inlineClassName := getClassNameFromMetadata metadata in
         Some {| inlineClassName := Some inlineClassName |})
      scopes
  with
  | Some o => o
  | None => {| inlineClassName := None |}
  end.

(** [toDecoration(range)] *)
Definition toDecoration (theme : TokenTheme) (range : SemanticHighlightingRange)
    : EditorDecoration :=
  let options := toOptions theme (scopes range) in
  {| range := {| r_start := start range; r_end := end_ range |};
     options := options |}.

(** ** The cache *)

(** [deleteDecorations(uri, editor)] *)
Definition deleteDecorations (uri : string) (editor : TextEditor) (w : World) : World :=
  let w1 :=
    match decorations w !! uri with
    | Some decorationWithRanges =>
        let oldDecorations := DecorationWithRanges.decorations decorationWithRanges in
        let '(_, w') :=
          deltaDecorations editor
            {| newDecorations := []; oldDecorations := oldDecorations |} w in
        set_decorations (delete uri) w'
    | None => w
    end in
  let w2 :=
    match toDisposeOnEditorClose w1 !! uri with
    | Some disposable => Disposable_dispose disposable w1
    | None => w1
    end in
  set_toDisposeOnEditorClose (delete uri) w2.

(** [decorate(uri, ranges)] *)
Definition decorate (uri : URI) (ranges : list SemanticHighlightingRange) (w : World)
    : World :=
  match getByUri uri w with
  | None => w
  | Some editorWidget =>
      match editor editorWidget with
      | OtherEditor _ => w
      | MonacoEditor _ as editor =>
          let key := toString uri in
          let model := getModel w editor in
          let w1 :=
            match toDisposeOnEditorClose w !! key with
            | Some _ => w
            | None =>
                let '(d, w') :=
                  onDispose editor {| l_key := key; l_editor := editor |} w in
                set_toDisposeOnEditorClose (<[key := d]>) w'
            end in
          let oldState :=
            default DecorationWithRanges.EMPTY (decorations w1 !! key) in
          (* Merge the previous state with the current one. *)
          let rangesToCache :=
            mergeRanges model (DecorationWithRanges.ranges oldState) ranges in
          let newDecorations := toDecoration (tokenTheme w1) <$> rangesToCache in
          let oldDecorations := DecorationWithRanges.decorations oldState in
          (* Do the decorations. *)
          let '(newState, w2) :=
            deltaDecorations editor
              {| newDecorations := newDecorations; oldDecorations := oldDecorations |} w1 in
          (* Cache the new state. *)
          set_decorations
            (<[key := {| DecorationWithRanges.ranges := rangesToCache;
                         DecorationWithRanges.decorations := newState |}]>) w2
      end
  end.

(** [dispose()]: every disposable of [toDisposeOnEditorClose] is disposed,
    from a copy of the values. *)
Definition dispose (w : World) : World :=
  foldl (λ w disposable, Disposable_dispose disposable w) w
    ((map_to_list (toDisposeOnEditorClose w)).*2).

(** Modelled from the spec: the close notification of a view. The editor
    runs the listeners registered with it, from a copy of the list, oldest
    first; each is the closure over [deleteDecorations]. *)
Definition fireOnDispose (e : TextEditor) (w : World) : World :=
  foldl (λ w r, deleteDecorations (l_key (reg_listener r)) (l_editor (reg_listener r)) w)
    w (filter (λ r, reg_editor r = e) (onDisposeListeners w)).

(** The parts of one [decorate] for a document with a Monaco editor, named
    for the statements below: the old state, the ranges to cache, the
    argument of [deltaDecorations] and the new state. *)
Definition cached (key : string) (w : World) : DecorationWithRanges.t :=
  default DecorationWithRanges.EMPTY (decorations w !! key).

Definition merged (e : TextEditor) (key : string)
    (ranges : list SemanticHighlightingRange) (w : World)
    : list SemanticHighlightingRange :=
  mergeRanges (getModel w e) (DecorationWithRanges.ranges (cached key w)) ranges.

Definition request (e : TextEditor) (key : string)
    (ranges : list SemanticHighlightingRange) (w : World) : DeltaDecorationParams :=
  {| newDecorations := toDecoration (tokenTheme w) <$> merged e key ranges w;
     oldDecorations := DecorationWithRanges.decorations (cached key w) |}.

Definition entry_after (e : TextEditor) (key : string)
    (ranges : list SemanticHighlightingRange) (w : World) : DecorationWithRanges.t :=
  {| DecorationWithRanges.decorations := deltaDecorationIds e (calls w) (request e key ranges w);
     DecorationWithRanges.ranges := merged e key ranges w |}.

End Service.

(** ** Runs of the service

    What can happen to the service between two observations: an update, the
    close notification of an editor, the disposal of the service, or a change
    of the host that leaves the service and its subscriptions alone (an editor
    opened, the text edited, the theme switched). *)
Inductive step
    (ids : TextEditor → list (TextEditor * DeltaDecorationParams) →
           DeltaDecorationParams → list string)
    (className : Z → string) : World → World → Prop :=
  | step_decorate uri ranges w :
      step ids className w (decorate ids className uri ranges w)
  | step_close e w :
      step ids className w (fireOnDispose ids e w)
  | step_dispose w :
      step ids className w (dispose w)
  | step_host w w' :
      decorations w' = decorations w →
      toDisposeOnEditorClose w' = toDisposeOnEditorClose w →
      onDisposeListeners w' = onDisposeListeners w →
      nextRegistration w' = nextRegistration w →
      calls w' = calls w →
      step ids className w w'.

(** The two maps track the same documents. *)
Definition same_documents (w : World) : Prop :=
  dom (decorations w) = dom (toDisposeOnEditorClose w).

(** Every cached entry has as many decoration ids as ranges. *)
Definition all_parity (w : World) : Prop :=
  map_Forall
    (λ _ entry, length (DecorationWithRanges.decorations entry)
                = length (DecorationWithRanges.ranges entry))
    (decorations w).

(** * Resource providers

    [DefaultResourceProvider]: the resolvers are asked in order until one
    provides the resource. *)

Module DefaultResourceProvider.

(** How a promise settles. *)
Inductive Settled (A E : Type) :=
  | Fulfilled (a : A)
  | Rejected (e : E).

Arguments Fulfilled {A E} a.
Arguments Rejected {A E} e.

Section Provider.

Variable Resource : Type.
(** What a resolver rejects with: any value; [truthy] is [!!reason]. *)
Variable Reason : Type.
Variable truthy : Reason → bool.
(** Whatever the resolvers read and change when they are asked. *)
Variable Host : Type.

(** [ResourceResolver]: [resolve(uri)] gives a promise. *)
Record ResourceResolver := {
  resolve : URI → Host → Settled Resource Reason * Host
}.

(** What the promise of [get] can be fulfilled with: the resource, or what
    the last [catch] returns, a reason or the message. *)
Inductive Value :=
  | a_resource (r : Resource)
  | a_reason (e : Reason)
  | a_message (s : string).

(** [get] returns a promise, or throws before it has one. *)
Inductive Outcome :=
  | Throws_TypeError
  | Promise (p : Settled Value string).

(** [createNotRegisteredError(uri)] *)
Definition createNotRegisteredError (uri : URI) : string :=
  "A resource provider for '" +:+ toString uri +:+ "' is not registered.".

(** [current.catch(onRejected)], with a handler that returns a promise. *)
Definition catch (current : Settled Resource Reason * Host)
    (onRejected : Reason → Host → Settled Resource Reason * Host)
    : Settled Resource Reason * Host :=
  match current with
  | (Fulfilled r, h) => (Fulfilled r, h)
  | (Rejected reason, h) => onRejected reason h
  end.

(** [get(uri)]: [resolvers] is [undefined] ([None]) or an array; the first
    resolver is asked at once, each further one when the promise so far is
    rejected; the last [catch] returns a value. *)
Definition get (resolvers : option (list ResourceResolver)) (uri : URI) (h : Host)
    : Outcome * Host :=
  match resolvers with
  | None => (Promise (Rejected (createNotRegisteredError uri)), h)
  | Some [] => (Throws_TypeError, h)
  | Some (first :: rest) =>
      let initial := resolve first uri h in
      let '(settled, h') :=
        foldl (λ current provider, catch current (λ _ h, resolve provider uri h))
          initial rest in
      match settled with
      | Fulfilled r => (Promise (Fulfilled (a_resource r)), h')
      | Rejected reason =>
          (Promise (Fulfilled
             (if truthy reason then a_reason reason
              else a_message (createNotRegisteredError uri))), h')
      end
  end.

(** The resolvers asked one after the other until one fulfils; [last] is the
    reason of the rejection so far. *)
Fixpoint attempt (providers : list ResourceResolver) (uri : URI)
    (last : Reason) (h : Host) : Settled Resource Reason * Host :=
  match providers with
  | [] => (Rejected last, h)
  | provider :: rest =>
      match resolve provider uri h with
      | (Fulfilled r, h') => (Fulfilled r, h')
      | (Rejected reason, h') => attempt rest uri reason h'
      end
  end.

End Provider.

Arguments resolve {Resource Reason Host} _ _ _.
Arguments a_resource {Resource Reason} r.
Arguments a_reason {Resource Reason} e.
Arguments a_message {Resource Reason} s.
Arguments Throws_TypeError {Resource Reason}.
Arguments Promise {Resource Reason} p.
Arguments get {Resource Reason} truthy {Host} resolvers uri h.
Arguments attempt {Resource Reason Host} providers uri last h.
Arguments catch {Resource Reason Host} current onRejected.

(** A sample: resources and reasons are strings, the host keeps the names
    of the resolvers asked. *)
Definition named (name : string) (answer : Settled string string)
    : ResourceResolver string string (list string) :=
  {| resolve := λ _ h, (answer, h ++ [name]) |}.

Definition nonempty (s : string) : bool := negb (String.eqb s "").

End DefaultResourceProvider.

(** * The storage service

    [LocalStorageService]: data kept as JSON text under prefixed keys, in the
    local storage of the window or, without one, in a plain object. *)

(** A call that returns a value or throws; the exception by its text. *)
Inductive Result (A : Type) :=
  | Ok (a : A)
  | Throws (e : string).

Arguments Ok {A} a.
Arguments Throws {A} e.

(** The [StorageService] interface, for data of one type; [None] is
    [undefined]. *)
Class StorageService (St T : Type) := {
  setData : string → option T → St → St;
  getData : string → option T → St → Result (option T)
}.

Module LocalStorageService.

(** The [window] global: whether it has a [localStorage], and the path of
    its location. *)
Record Window := {
  has_localStorage : bool;
  pathname : string
}.

Record t := {
  (* the window global, None when typeof window is undefined *)
  window : option Window;
  (* the items of this.storage *)
  storage : gmap string string;
  (* this.storage is window.localStorage, not the plain object *)
  web : bool;
  fullstorage : bool;
  (* the warnings given to the message service; None when there is none *)
  messageService : option (list string);
  (* the warnings given to the logger *)
  logger : list string
}.

(** The constructor, over the items the local storage of the window already
    holds. *)
Definition new (w : option Window) (items : gmap string string)
    (ms : option (list string)) : t :=
  match w with
  | Some win =>
      if has_localStorage win then
        {| window := w; storage := items; web := true; fullstorage := false;
           messageService := ms; logger := [] |}
      else
        {| window := w; storage := ∅; web := false; fullstorage := false;
           messageService := ms;
           logger := ["The browser doesn't support localStorage. state will not be persisted across sessions."] |}
  | None =>
      {| window := w; storage := ∅; web := false; fullstorage := false;
         messageService := ms;
         logger := ["The browser doesn't support localStorage. state will not be persisted across sessions."] |}
  end.

(** [prefix(key)] *)
Definition prefix (st : t) (key : string) : string :=
  let pathname := match window st with None => "" | Some win => pathname win end in
  "theia:" +:+ pathname +:+ ":" +:+ key.

Definition isLocalStorageFull (st : t) : bool := fullstorage st.

Definition newline : string := String (Ascii.ascii_of_nat 10) "".

Section Data.

(** The data stored, with [JSON.stringify] and [JSON.parse] on it. *)
Variable T : Type.
(** [text.length]: the length of a JavaScript string, in UTF-16 code units. *)
Variable text_length : string → nat.
Variable stringify : T → Result string.
Variable parse : string → Result T.
(** What the local storage of the window throws, if anything, when an item
    is assigned: the quota is the browser's. *)
Variable assign_error : gmap string string → string → string → option string.

(** [verifyLocalStorage()]: the lengths of all items added up; the plain
    object has no [length], so the loop never runs. *)
Definition verifyLocalStorage (st : t) : string :=
  let totalLength :=
    if web st then
      foldl (λ totalLength item, totalLength + text_length item.2) 0
        (map_to_list (storage st))
    else 0 in
  pretty totalLength.

(** The [try] block of [setData]. *)
Definition try_store (key : string) (data : T) (st : t) : Result t :=
  if isLocalStorageFull st then Ok st
  else
    match stringify data with
    | Throws e => Throws e
    | Ok json =>
        let stored :=
          {| window := window st;
             storage := <[prefix st key := json]> (storage st);
             web := web st; fullstorage := fullstorage st;
             messageService := messageService st; logger := logger st |} in
        if web st then
          match assign_error (storage st) (prefix st key) json with
          | Some e => Throws e
          | None => Ok stored
          end
        else Ok stored
    end.

(** [setData(key, data)] *)
Definition setData (key : string) (data : option T) (st : t) : t :=
  match data with
  | Some d =>
      match try_store key d st with
      | Ok st' => st'
      | Throws e =>
          match messageService st with
          | Some warnings =>
              let currentSize := verifyLocalStorage st in
              {| window := window st; storage := storage st; web := web st;
                 fullstorage := true;
                 messageService :=
                   Some (warnings ++
                     ["Web storage quota: " +:+ newline +:+ "  " +:+ e +:+ " " +:+ newline
                      +:+ " current size: " +:+ currentSize +:+ " bytes"]);
                 logger := logger st |}
          | None => st
          end
      end
  | None =>
      {| window := window st;
         storage := delete (prefix st key) (storage st);
         web := web st; fullstorage := fullstorage st;
         messageService := messageService st; logger := logger st |}
  end.

(** [getData(key, defaultValue)] *)
Definition getData (key : string) (defaultValue : option T) (st : t)
    : Result (option T) :=
  match storage st !! prefix st key with
  | None => Ok defaultValue
  | Some result =>
      match parse result with
      | Ok v => Ok (Some v)
      | Throws e => Throws e
      end
  end.

(** [LocalStorageService implements StorageService] *)
Definition service : StorageService t T :=
  Build_StorageService t T setData getData.

End Data.

End LocalStorageService.

(** * Connecting to a remote server

    [ResponseStatus] and the history of [ElectronRemoteContribution], kept
    through the storage service. *)

Module ResponseStatus.

Record Error := { message : string }.

(** [status] and [error] are optional; [None] is [undefined]. *)
Record t := {
  url : string;
  status : option string;
  error : option Error
}.

(** A string in a condition: the empty string is falsy. *)
Definition truthy (text : string) : bool := negb (String.eqb text "").

(** [display(status)]: the text, and the status object as the call leaves
    it. *)
Definition display (s : t) : string * t :=
  let unresolved :=
    match error s, status s with
    | Some _, _ => false
    | None, Some text => negb (truthy text)
    | None, None => true
    end in
  let s' :=
    if unresolved
    then {| url := url s; status := status s;
            error := Some {| message := "Unresolved" |} |}
    else s in
  (match error s' with
   | Some err => "Error: " +:+ message err
   | None => "Status: " +:+ default "undefined" (status s')
   end, s').

End ResponseStatus.

Module ElectronRemoteHistory.
Definition KEY : string := "theia.remote.history".
End ElectronRemoteHistory.

Module ElectronRemoteContribution.

(** [array.map(f)] with an [f] that may throw. *)
Fixpoint map_throwing {A B : Type} (f : A → Result B) (l : list A) : Result (list B) :=
  match l with
  | [] => Ok []
  | x :: rest =>
      match f x with
      | Throws e => Throws e
      | Ok y =>
          match map_throwing f rest with
          | Throws e => Throws e
          | Ok ys => Ok (y :: ys)
          end
      end
  end.

(** [history.indexOf(encoded)]; [None] is [-1]. *)
Fixpoint indexOf (encoded : string) (history : list string) : option nat :=
  match history with
  | [] => None
  | entry :: rest =>
      if String.eqb entry encoded then Some 0
      else S <$> indexOf encoded rest
  end.

(** The array of [remember] once it has spliced and pushed. *)
Definition remembered (encoded : string) (history : list string) : list string :=
  let history1 :=
    match indexOf encoded history with
    | Some currentIndex => delete currentIndex history
    | None => history
    end in
  history1 ++ [encoded].

Section Contribution.

(** [localStorageService], used for arrays of strings. *)
Context {St : Type} (localStorageService : StorageService St (list string)).

(** [encodeURI] and [decodeURI]; both throw on what they cannot code. *)
Variable encodeURI : string → Result string.
Variable decodeURI : string → Result string.

(** The [history] getter. A promise rejected is a [Throws]. *)
Definition history (st : St) : Result (list string) :=
  match getData ElectronRemoteHistory.KEY (Some []) st with
  | Throws e => Throws e
  | Ok None => Throws "TypeError"
  | Ok (Some history) => map_throwing decodeURI history
  end.

(** [remember(url)] *)
Definition remember (url : string) (st : St) : Result St :=
  match getData ElectronRemoteHistory.KEY (Some []) st with
  | Throws e => Throws e
  | Ok history =>
      match encodeURI url with
      | Throws e => Throws e
      | Ok encoded =>
          if ResponseStatus.truthy encoded then
            match history with
            | None => Throws "TypeError"
            | Some history =>
                Ok (setData ElectronRemoteHistory.KEY (Some (remembered encoded history)) st)
            end
          else Ok st
      end
  end.

(** [clearHistory()] *)
Definition clearHistory (st : St) : St :=
  setData ElectronRemoteHistory.KEY None st.

End Contribution.

End ElectronRemoteContribution.

(** ** A sample storage

    The local storage of a window at path [/], with a quota of 40 characters
    for one item; arrays of strings written as [[a,b]]; URLs that code as
    themselves. *)

Module Sample.

Definition stringify0 (l : list string) : Result string :=
  Ok ("[" +:+ String.concat "," l +:+ "]").

(** The text between the brackets, cut at the commas. *)
Fixpoint cut (text current : string) : list string :=
  match text with
  | EmptyString => []
  | String c rest =>
      if Ascii.eqb c (Ascii.ascii_of_nat 93) then
        if String.eqb current "" then [] else [current]
      else if Ascii.eqb c (Ascii.ascii_of_nat 44) then current :: cut rest ""
      else cut rest (current +:+ String c "")
  end.

Definition parse0 (text : string) : Result (list string) :=
  match text with
  | String c rest =>
      if Ascii.eqb c (Ascii.ascii_of_nat 91) then Ok (cut rest "")
      else Throws "SyntaxError"
  | EmptyString => Throws "SyntaxError"
  end.

Definition assign_error0 (items : gmap string string) (key value : string)
    : option string :=
  if Nat.ltb 40 (String.length value) then Some "QuotaExceededError" else None.

Definition code0 (text : string) : Result string := Ok text.

Definition st0 : LocalStorageService.t :=
  LocalStorageService.new (Some {| LocalStorageService.has_localStorage := true;
                                   LocalStorageService.pathname := "/" |})
    ∅ (Some []).

Definition service0 : StorageService LocalStorageService.t (list string) :=
  LocalStorageService.service (list string) String.length stringify0 parse0 assign_error0.

(** The sample storage with a history of two servers. *)
Definition st_history : LocalStorageService.t :=
  LocalStorageService.setData (list string) String.length stringify0 assign_error0
    ElectronRemoteHistory.KEY (Some ["http://a"; "http://b"]) st0.

(** The sample storage once a value too long for the quota was stored. *)
Definition st_full : LocalStorageService.t :=
  LocalStorageService.setData (list string) String.length stringify0 assign_error0 "big"
    (Some ["0123456789"; "0123456789"; "0123456789"; "0123456789"]) st0.

End Sample.

(** ** A sample host

    One document, open in a Monaco editor over a model of 100 lines; the
    editor numbers the decorations it adds by the call and the position. *)

Definition ids0 (e : TextEditor) (h : list (TextEditor * DeltaDecorationParams))
    (p : DeltaDecorationParams) : list string :=
  imap (λ i _, pretty (length h) +:+ "." +:+ pretty i) (newDecorations p).

Definition className0 (metadata : Z) : string := "mtk" +:+ pretty metadata.

Definition theme0 : TokenTheme :=
  {| match_ := λ scope,
       if String.eqb scope "keyword" then 5%Z
       else if String.eqb scope "string" then 7%Z
       else 1%Z |}.

Definition uri0 : URI := {| toString := "file:///a.ts" |}.

Definition widget0 : EditorWidget := {| editor := MonacoEditor 1 |}.

Definition w0 : World :=
  {| decorations := ∅;
     toDisposeOnEditorClose := ∅;
     editorManager := {[ "file:///a.ts" := widget0; "file:///b.txt" := {| editor := OtherEditor 2 |} ]};
     getModel := λ _, {| getLineCount := 100 |};
     tokenTheme := theme0;
     onDisposeListeners := [];
     nextRegistration := 0;
     calls := [] |}.

Definition update1 : list SemanticHighlightingRange := [mkRange 2 0 2 5 ["keyword"]].
Definition update2 : list SemanticHighlightingRange := [mkRange 2 0 2 3 ["string"]].
Definition update3 : list SemanticHighlightingRange := [mkRange 9 0 9 4 ["comment"]].

(** The sample host after the first update. *)
Definition w1 : World := decorate ids0 className0 uri0 update1 w0.

(** * Properties *)

(** ** The merge *)

Example merge_ex :
  mergeRanges {| getLineCount := 100 |}
    [mkRange 2 0 2 5 ["keyword"]; mkRange 4 0 4 1 []] [mkRange 2 0 2 3 ["string"]]
  = [mkRange 4 0 4 1 []; mkRange 2 0 2 3 ["string"]].
Proof. vm_compute. reflexivity. Qed.

Lemma starts_in_affected (newRanges : list SemanticHighlightingRange) (l : Z) :
  starts_in newRanges l = true ↔
  l ∈ (list_to_set (start_line <$> newRanges) : gset Z).
Proof.
  unfold starts_in. rewrite elem_of_list_to_set, list_elem_of_fmap, existsb_exists.
  split.
  - intros (n & Hin & Heq). exists n. split.
    + symmetry. by apply Z.eqb_eq.
    + by apply list_elem_of_In.
  - intros (n & Heq & Hin). exists n. split.
    + by apply list_elem_of_In.
    + apply Z.eqb_eq. by symmetry.
Qed.

Lemma kept_iff (newRanges : list SemanticHighlightingRange) (N : Z)
    (r : SemanticHighlightingRange) :
  (negb (starts_in newRanges (start_line r)) && Z.ltb (start_line r) N) = true ↔
  (start_line r ∉ (list_to_set (start_line <$> newRanges) : gset Z)) ∧ (start_line r < N)%Z.
Proof.
  rewrite andb_true_iff, negb_true_iff, Z.ltb_lt, <- starts_in_affected.
  by rewrite not_true_iff_false.
Qed.

Lemma filter_retained (oldRanges newRanges : list SemanticHighlightingRange) (N : Z) :
  filter (λ r, (start_line r ∉ (list_to_set (start_line <$> newRanges) : gset Z))
               ∧ (start_line r < N)%Z) oldRanges
  = retained oldRanges newRanges N.
Proof.
  induction oldRanges as [|r rest IH]; [done|].
  simpl retained.
  destruct (negb (starts_in newRanges (start_line r)) && Z.ltb (start_line r) N) eqn:E.
  - apply kept_iff in E. rewrite filter_cons_True by done. by rewrite IH.
  - rewrite filter_cons_False; [done|].
    intros H. apply kept_iff in H. congruence.
Qed.

Lemma mergeRanges_retained (model : ITextModel)
    (oldRanges newRanges : list SemanticHighlightingRange) :
  mergeRanges model oldRanges newRanges
  = retained oldRanges newRanges (getLineCount model) ++ newRanges.
Proof.
  unfold mergeRanges. by rewrite filter_retained.
Qed.

(** C1: the merge is the old ranges whose start line is no start line of a
    new range and is below the line count, in their order, followed by all
    the new ranges in their order. *)
Theorem mergeRanges_spec (model : ITextModel)
    (oldRanges newRanges : list SemanticHighlightingRange) :
  mergeRanges model oldRanges newRanges
  = merge_spec oldRanges newRanges (getLineCount model).
Proof.
  unfold merge_spec. apply mergeRanges_retained.
Qed.

Lemma retained_sublist (oldRanges newRanges : list SemanticHighlightingRange) (N : Z) :
  retained oldRanges newRanges N `sublist_of` oldRanges.
Proof.
  induction oldRanges as [|r rest IH]; simpl; [done|].
  destruct (_ && _); by constructor.
Qed.

Lemma retained_unaffected (oldRanges newRanges : list SemanticHighlightingRange)
    (N : Z) (r : SemanticHighlightingRange) :
  r ∈ retained oldRanges newRanges N →
  starts_in newRanges (start_line r) = false ∧ (start_line r < N)%Z.
Proof.
  induction oldRanges as [|o rest IH]; simpl.
  - by intros ?%elem_of_nil.
  - destruct (negb (starts_in newRanges (start_line o)) && Z.ltb (start_line o) N) eqn:E;
      [|done].
    intros [->|Hin]%elem_of_cons; [|by apply IH].
    apply andb_true_iff in E as [E1 E2].
    apply negb_true_iff in E1. by apply Z.ltb_lt in E2.
Qed.

(** C2: when a new range starts at line [L], the merge is some part of the
    old ranges followed by the new ranges, and no range of that part starts
    at line [L]. *)
Theorem mergeRanges_new_wins (model : ITextModel)
    (oldRanges newRanges : list SemanticHighlightingRange) (L : Z) :
  (∃ n, n ∈ newRanges ∧ start_line n = L) →
  ∃ kept,
    mergeRanges model oldRanges newRanges = kept ++ newRanges ∧
    kept `sublist_of` oldRanges ∧
    Forall (λ r, start_line r ≠ L) kept.
Proof.
  intros (n & Hn & HL).
  exists (retained oldRanges newRanges (getLineCount model)).
  split; [apply mergeRanges_retained|].
  split; [apply retained_sublist|].
  apply Forall_forall. intros r Hr Heq.
  apply retained_unaffected in Hr as [Hr _].
  assert (starts_in newRanges (start_line r) = true); [|congruence].
  apply existsb_exists. exists n. split; [by apply list_elem_of_In|].
  apply Z.eqb_eq. congruence.
Qed.

Lemma retained_below (oldRanges newRanges : list SemanticHighlightingRange) (N : Z) :
  Forall (λ r, (start_line r < N)%Z) (retained oldRanges newRanges N).
Proof.
  apply Forall_forall. intros r Hr. by apply retained_unaffected in Hr as [_ Hr].
Qed.

Lemma retained_none (oldRanges newRanges : list SemanticHighlightingRange) (N : Z) :
  Forall (λ r, (N ≤ start_line r)%Z) oldRanges →
  retained oldRanges newRanges N = [].
Proof.
  induction 1 as [|r rest Hr _ IH]; simpl; [done|].
  apply Z.ltb_ge in Hr. by rewrite Hr, andb_false_r.
Qed.

Lemma retained_no_new (R : list SemanticHighlightingRange) (N : Z) :
  retained R [] N = below_filter R N.
Proof.
  induction R as [|r rest IH]; simpl; [done|]. by rewrite IH.
Qed.

Lemma below_bounds_filter (R : list SemanticHighlightingRange) (N : Z) :
  Forall (λ r, (0 ≤ start_line r)%Z) R →
  below_filter R N = bounds_filter R N.
Proof.
  induction 1 as [|r rest Hr _ IH]; simpl; [done|].
  apply Z.leb_le in Hr. by rewrite Hr, IH.
Qed.

(** C4, as the code has it: with a line count of 0 the merge is the new
    ranges, with before them at most old ranges whose start line is below 0;
    when the old ranges all start at a line from 0 on, it is exactly the new
    ranges. *)
Theorem mergeRanges_lineCount_0 (oldRanges newRanges : list SemanticHighlightingRange) :
  (∃ kept,
     mergeRanges {| getLineCount := 0 |} oldRanges newRanges = kept ++ newRanges ∧
     kept `sublist_of` oldRanges ∧
     Forall (λ r, (start_line r < 0)%Z) kept) ∧
  (Forall (λ r, (0 ≤ start_line r)%Z) oldRanges →
   mergeRanges {| getLineCount := 0 |} oldRanges newRanges = newRanges).
Proof.
  split.
  - exists (retained oldRanges newRanges 0).
    split; [apply mergeRanges_retained|].
    split; [apply retained_sublist|apply retained_below].
  - intros H. rewrite mergeRanges_retained. simpl. by rewrite retained_none.
Qed.

(** C7, as the code has it: with no new ranges the merge is the old ranges
    whose start line is below the line count, so a part of them, each range
    as it was; the code has no test from below, and when the old ranges all
    start at a line from 0 on this is the bounds filter. *)
Theorem mergeRanges_empty_update (R : list SemanticHighlightingRange) (N : Z) :
  mergeRanges {| getLineCount := N |} R [] = below_filter R N ∧
  mergeRanges {| getLineCount := N |} R [] `sublist_of` R ∧
  (Forall (λ r, (0 ≤ start_line r)%Z) R →
   mergeRanges {| getLineCount := N |} R [] = bounds_filter R N).
Proof.
  rewrite mergeRanges_retained. simpl. rewrite app_nil_r.
  split; [apply retained_no_new|].
  split; [apply retained_sublist|].
  intros H. rewrite retained_no_new. by apply below_bounds_filter.
Qed.

(** C10: the new ranges are the tail of the merge, whatever their start
    lines and the line count; each of them is in the result as it came. *)
Theorem mergeRanges_keeps_new (model : ITextModel)
    (oldRanges newRanges : list SemanticHighlightingRange) :
  newRanges `suffix_of` mergeRanges model oldRanges newRanges ∧
  Forall (λ r, r ∈ mergeRanges model oldRanges newRanges) newRanges.
Proof.
  split.
  - unfold mergeRanges. apply suffix_app_r. done.
  - apply Forall_forall. intros r Hr. unfold mergeRanges.
    apply elem_of_app. by right.
Qed.

(** ** Style resolution and the cache *)

Section ServiceFacts.

Variable ids :
  TextEditor → list (TextEditor * DeltaDecorationParams) → DeltaDecorationParams → list string.
Variable className : Z → string.

(** C8: the options of a range's decoration come from the first scope alone,
    through the theme's match and the class name of the metadata; with no
    scopes they are the empty options. *)
Theorem toDecoration_first_scope (theme : TokenTheme) (r : SemanticHighlightingRange) :
  options (toDecoration className theme r)
  = match scopes r with
    | [] => {| inlineClassName := None |}
    | scope :: _ => {| inlineClassName := Some (className (match_ theme scope)) |}
    end.
Proof.
  unfold toDecoration, toOptions. simpl.
  destruct (scopes r) as [|scope rest]; reflexivity.
Qed.

(** C9: with no editor for the URI, or with an editor that is no
    [MonacoEditor], [decorate] leaves the world as it was: both maps, and
    the calls made to [deltaDecorations]. *)
Theorem decorate_no_view (uri : URI) (ranges : list SemanticHighlightingRange)
    (w : World) :
  (getByUri uri w = None ∨
   ∃ widget, getByUri uri w = Some widget ∧ ∀ id, editor widget ≠ MonacoEditor id) →
  decorate ids className uri ranges w = w.
Proof.
  unfold decorate. intros [-> | (widget & -> & Hkind)]; [done|].
  destruct (editor widget) as [id|id]; [|done].
  by destruct (Hkind id).
Qed.

Lemma decorate_untracked (uri : URI) (ranges : list SemanticHighlightingRange)
    (w : World) (widget : EditorWidget) (id : nat) :
  getByUri uri w = Some widget →
  editor widget = MonacoEditor id →
  toDisposeOnEditorClose w !! toString uri = None →
  decorate ids className uri ranges w
  = {| decorations :=
         <[toString uri := entry_after ids className (MonacoEditor id) (toString uri) ranges w]>
           (decorations w);
       toDisposeOnEditorClose := <[toString uri := nextRegistration w]> (toDisposeOnEditorClose w);
       editorManager := editorManager w;
       getModel := getModel w;
       tokenTheme := tokenTheme w;
       onDisposeListeners :=
         onDisposeListeners w ++
           [{| reg_id := nextRegistration w;
               reg_editor := MonacoEditor id;
               reg_listener := {| l_key := toString uri; l_editor := MonacoEditor id |} |}];
       nextRegistration := S (nextRegistration w);
       calls := calls w ++ [(MonacoEditor id, request className (MonacoEditor id) (toString uri) ranges w)] |}.
Proof.
  intros Hw He Hd. unfold decorate. rewrite Hw, He, Hd. reflexivity.
Qed.

Lemma decorate_tracked (uri : URI) (ranges : list SemanticHighlightingRange)
    (w : World) (widget : EditorWidget) (id : nat) (d : Disposable) :
  getByUri uri w = Some widget →
  editor widget = MonacoEditor id →
  toDisposeOnEditorClose w !! toString uri = Some d →
  decorate ids className uri ranges w
  = {| decorations :=
         <[toString uri := entry_after ids className (MonacoEditor id) (toString uri) ranges w]>
           (decorations w);
       toDisposeOnEditorClose := toDisposeOnEditorClose w;
       editorManager := editorManager w;
       getModel := getModel w;
       tokenTheme := tokenTheme w;
       onDisposeListeners := onDisposeListeners w;
       nextRegistration := nextRegistration w;
       calls := calls w ++ [(MonacoEditor id, request className (MonacoEditor id) (toString uri) ranges w)] |}.
Proof.
  intros Hw He Hd. unfold decorate. rewrite Hw, He, Hd. reflexivity.
Qed.

Lemma decorate_entry (uri : URI) (ranges : list SemanticHighlightingRange)
    (w : World) (widget : EditorWidget) (id : nat) :
  getByUri uri w = Some widget →
  editor widget = MonacoEditor id →
  decorations (decorate ids className uri ranges w) !! toString uri
  = Some (entry_after ids className (MonacoEditor id) (toString uri) ranges w).
Proof.
  intros Hw He.
  destruct (toDisposeOnEditorClose w !! toString uri) as [d|] eqn:Hd.
  - rewrite (decorate_tracked _ _ _ _ _ _ Hw He Hd). simpl. apply lookup_insert_eq.
  - rewrite (decorate_untracked _ _ _ _ _ Hw He Hd). simpl. apply lookup_insert_eq.
Qed.

Section Parity.

(** The editor answers with one id for each decoration it is asked to add. *)
Hypothesis one_id_per_decoration :
  ∀ e h p, length (ids e h p) = length (newDecorations p).

(** C5: after [decorate] for a document with a Monaco editor, the cached
    entry has as many decoration ids as ranges. *)
Theorem decorate_handle_parity (uri : URI) (ranges : list SemanticHighlightingRange)
    (w : World) (widget : EditorWidget) (id : nat) :
  getByUri uri w = Some widget →
  editor widget = MonacoEditor id →
  ∃ entry,
    decorations (decorate ids className uri ranges w) !! toString uri = Some entry ∧
    length (DecorationWithRanges.decorations entry)
    = length (DecorationWithRanges.ranges entry).
Proof.
  intros Hw He. eexists. split; [by apply decorate_entry with widget|].
  simpl. rewrite one_id_per_decoration. simpl. apply length_fmap.
Qed.

End Parity.

Lemma filter_all {A} (P : A → Prop) `{!∀ x, Decision (P x)} (l : list A) :
  (∀ x, P x) → filter P l = l.
Proof.
  intros HP. induction l as [|x l IH]; [done|].
  rewrite filter_cons_True by done. by rewrite IH.
Qed.

Lemma filter_comm {A} (P Q : A → Prop)
    `{!∀ x, Decision (P x), !∀ x, Decision (Q x)} (l : list A) :
  filter P (filter Q l) = filter Q (filter P l).
Proof. rewrite !list_filter_filter. apply list_filter_iff. tauto. Qed.

(** [dispose] folds [Disposable_dispose]; such a fold touches only the
    listeners. *)
Lemma dispose_all_fields (ds : list Disposable) (w : World) :
  let w' := foldl (λ w d, Disposable_dispose d w) w ds in
  decorations w' = decorations w ∧
  toDisposeOnEditorClose w' = toDisposeOnEditorClose w ∧
  editorManager w' = editorManager w ∧
  calls w' = calls w ∧
  onDisposeListeners w' = filter (λ r, reg_id r ∉ ds) (onDisposeListeners w).
Proof.
  revert w. induction ds as [|d ds IH]; intros w; simpl.
  - repeat split; try done.
    symmetry. apply filter_all. intros r. apply not_elem_of_nil.
  - destruct (IH (Disposable_dispose d w)) as (H1 & H2 & H3 & H4 & H5).
    repeat split; try done.
    rewrite H5. simpl. rewrite list_filter_filter.
    apply list_filter_iff. intros r. rewrite not_elem_of_cons. tauto.
Qed.

(** C3, as the code has it: [dispose] cancels the close subscription of
    every tracked document and nothing else: both maps keep their entries, no
    call goes to [deltaDecorations], and the listeners left are those that
    no entry of [toDisposeOnEditorClose] names. *)
Theorem dispose_cancels_subscriptions_only (w : World) :
  decorations (dispose w) = decorations w ∧
  toDisposeOnEditorClose (dispose w) = toDisposeOnEditorClose w ∧
  calls (dispose w) = calls w ∧
  ∀ r, r ∈ onDisposeListeners (dispose w) ↔
       r ∈ onDisposeListeners w ∧
       ∀ key, toDisposeOnEditorClose w !! key ≠ Some (reg_id r).
Proof.
  unfold dispose.
  destruct (dispose_all_fields ((map_to_list (toDisposeOnEditorClose w)).*2) w)
    as (H1 & H2 & _ & H4 & H5).
  split; [done|]. split; [done|]. split; [done|].
  intros r. rewrite H5, list_elem_of_filter. split.
  - intros [Hr Hin]. split; [done|]. intros key Hk.
    apply Hr. apply list_elem_of_fmap. exists (key, reg_id r). split; [done|].
    by apply elem_of_map_to_list.
  - intros [Hin Hk]. split; [|done].
    intros ((key & d) & Heq & Hd)%list_elem_of_fmap. simpl in Heq. subst d.
    apply elem_of_map_to_list in Hd. by apply (Hk key).
Qed.

(** [deleteDecorations] on a tracked document: one clearing call, the
    subscription cancelled, both entries removed. *)
Lemma deleteDecorations_tracked (key : string) (e : TextEditor) (w : World)
    (entry : DecorationWithRanges.t) (d : Disposable) :
  decorations w !! key = Some entry →
  toDisposeOnEditorClose w !! key = Some d →
  deleteDecorations ids key e w
  = {| decorations := delete key (decorations w);
       toDisposeOnEditorClose := delete key (toDisposeOnEditorClose w);
       editorManager := editorManager w;
       getModel := getModel w;
       tokenTheme := tokenTheme w;
       onDisposeListeners := filter (λ r, reg_id r ≠ d) (onDisposeListeners w);
       nextRegistration := nextRegistration w;
       calls := calls w ++
         [(e, {| newDecorations := [];
                 oldDecorations := DecorationWithRanges.decorations entry |})] |}.
Proof.
  intros He Hd. unfold deleteDecorations. rewrite He. simpl. rewrite Hd. reflexivity.
Qed.

(** [deleteDecorations] on a document in neither map does nothing. *)
Lemma deleteDecorations_absent (key : string) (e : TextEditor) (w : World) :
  decorations w !! key = None →
  toDisposeOnEditorClose w !! key = None →
  deleteDecorations ids key e w = w.
Proof.
  intros He Hd. unfold deleteDecorations. rewrite He, Hd.
  unfold set_toDisposeOnEditorClose. rewrite delete_id by done. by destruct w.
Qed.

(** C6: a document is opened in a Monaco editor that has no listener yet and
    is not tracked; after two updates the close notification of the editor
    makes exactly one call, the one that clears the cached decoration ids, and
    leaves the document in neither map; a second close notification, or a
    second [deleteDecorations], changes nothing. *)
Theorem close_exactly_once (uri : URI) (r1 r2 : list SemanticHighlightingRange)
    (w : World) (widget : EditorWidget) (id : nat) :
  getByUri uri w = Some widget →
  editor widget = MonacoEditor id →
  toDisposeOnEditorClose w !! toString uri = None →
  filter (λ r, reg_editor r = MonacoEditor id) (onDisposeListeners w) = [] →
  let key := toString uri in
  let e := MonacoEditor id in
  let w2 := decorate ids className uri r2 (decorate ids className uri r1 w) in
  let w3 := fireOnDispose ids e w2 in
  let w4 := fireOnDispose ids e w3 in
  is_Some (decorations w2 !! key) ∧
  calls w3 = calls w2 ++
    [(e, {| newDecorations := [];
            oldDecorations := DecorationWithRanges.decorations (cached key w2) |})] ∧
  decorations w3 !! key = None ∧
  toDisposeOnEditorClose w3 !! key = None ∧
  w4 = w3 ∧
  deleteDecorations ids key e w3 = w3.
Proof.
  intros Hw He Hd Hl key e w2 w3 w4.
  change (MonacoEditor id) with e in Hl.
  pose proof (decorate_untracked uri r1 w widget id Hw He Hd) as E1.
  set (w1 := decorate ids className uri r1 w) in *.
  assert (getByUri uri w1 = Some widget) as Hw1 by (rewrite E1; exact Hw).
  assert (toDisposeOnEditorClose w1 !! toString uri = Some (nextRegistration w)) as Hd1.
  { rewrite E1. simpl. apply lookup_insert_eq. }
  pose proof (decorate_tracked uri r2 w1 widget id _ Hw1 He Hd1) as E2.
  fold w2 in E2.
  assert (decorations w2 !! key
          = Some (entry_after ids className e key r2 w1)) as He2.
  { rewrite E2. simpl. apply lookup_insert_eq. }
  assert (toDisposeOnEditorClose w2 !! key = Some (nextRegistration w)) as Hd2.
  { rewrite E2. simpl. exact Hd1. }
  assert (onDisposeListeners w2
          = onDisposeListeners w ++
              [{| reg_id := nextRegistration w; reg_editor := e;
                  reg_listener := {| l_key := key; l_editor := e |} |}]) as Hl2.
  { rewrite E2. simpl. rewrite E1. reflexivity. }
  assert (w3 = deleteDecorations ids key e w2) as E3.
  { unfold w3, fireOnDispose. rewrite Hl2, filter_app, Hl. simpl.
    rewrite filter_cons_True by done. reflexivity. }
  rewrite (deleteDecorations_tracked _ _ _ _ _ He2 Hd2) in E3.
  assert (decorations w3 !! key = None) as He3.
  { rewrite E3. simpl. apply lookup_delete_eq. }
  assert (toDisposeOnEditorClose w3 !! key = None) as Hd3.
  { rewrite E3. simpl. apply lookup_delete_eq. }
  assert (filter (λ r, reg_editor r = e) (onDisposeListeners w3) = []) as Hl3.
  { rewrite E3. simpl. rewrite filter_comm, Hl2, filter_app, Hl. simpl.
    rewrite filter_cons_True by done.
    rewrite filter_cons_False by (simpl; intros Hne; by apply Hne). reflexivity. }
  split; [by rewrite He2|].
  split; [rewrite E3; unfold cached; rewrite He2; reflexivity|].
  split; [done|]. split; [done|].
  split.
  - unfold w4, fireOnDispose. rewrite Hl3. reflexivity.
  - by apply deleteDecorations_absent.
Qed.

End ServiceFacts.

(** ** The scenario of the specification on the sample host *)

Example scenario_update1 :
  decorations w1 !! "file:///a.ts"
  = Some {| DecorationWithRanges.decorations := ["0.0"];
            DecorationWithRanges.ranges := update1 |}.
Proof. vm_compute. reflexivity. Qed.

Example scenario_update2 :
  let w := decorate ids0 className0 uri0 update2 w1 in
  decorations w !! "file:///a.ts"
  = Some {| DecorationWithRanges.decorations := ["1.0"];
            DecorationWithRanges.ranges := update2 |} ∧
  oldDecorations <$> (snd <$> last (calls w)) = Some ["0.0"].
Proof. vm_compute. split; reflexivity. Qed.

Example scenario_update3 :
  let w := decorate ids0 className0 uri0 update3
             (decorate ids0 className0 uri0 update2 w1) in
  decorations w !! "file:///a.ts"
  = Some {| DecorationWithRanges.decorations := ["2.0"; "2.1"];
            DecorationWithRanges.ranges := update2 ++ update3 |}.
Proof. vm_compute. reflexivity. Qed.

Example bounds_pruning :
  mergeRanges {| getLineCount := 5 |} [mkRange 10 0 10 1 []] [] = [].
Proof. vm_compute. reflexivity. Qed.

Example toOptions_keyword :
  toOptions className0 theme0 ["keyword"; "string"]
  = {| inlineClassName := Some "mtk5" |}.
Proof. vm_compute. reflexivity. Qed.

(** ** The theorems at the sample host *)

Lemma mergeRanges_new_wins_witness :
  ∃ kept,
    mergeRanges {| getLineCount := 100 |} update1 update2 = kept ++ update2 ∧
    kept `sublist_of` update1 ∧
    Forall (λ r, start_line r ≠ 2%Z) kept.
Proof.
  apply (mergeRanges_new_wins {| getLineCount := 100 |} update1 update2 2).
  exists (mkRange 2 0 2 3 ["string"]). split; [apply list_elem_of_here | reflexivity].
Defined.

(** With a line count of 0 and one new range the merge is not empty. *)
Lemma mergeRanges_lineCount_0_not_empty :
  mergeRanges {| getLineCount := 0 |} [] update1 ≠ [].
Proof. vm_compute. discriminate. Qed.

Lemma decorate_no_view_witness :
  decorate ids0 className0 {| toString := "file:///c.ts" |} update1 w1 = w1 ∧
  decorate ids0 className0 {| toString := "file:///b.txt" |} update1 w1 = w1.
Proof.
  split.
  - apply (decorate_no_view ids0 className0). left. vm_compute. reflexivity.
  - apply (decorate_no_view ids0 className0). right.
    exists {| editor := OtherEditor 2 |}. split; [vm_compute; reflexivity|].
    intros id. simpl. discriminate.
Defined.

Lemma ids0_one_id_per_decoration e h p :
  length (ids0 e h p) = length (newDecorations p).
Proof. unfold ids0. apply length_imap. Qed.

Lemma decorate_handle_parity_witness :
  ∃ entry,
    decorations (decorate ids0 className0 uri0 update3 w1) !! toString uri0 = Some entry ∧
    length (DecorationWithRanges.decorations entry)
    = length (DecorationWithRanges.ranges entry).
Proof.
  apply (decorate_handle_parity ids0 className0 ids0_one_id_per_decoration
           uri0 update3 w1 widget0 1).
  - vm_compute. reflexivity.
  - reflexivity.
Defined.

(** After [dispose] on the sample host with one tracked document, the
    document is still in both maps and no call has cleared its decorations. *)
Lemma dispose_leaves_cache :
  decorations (dispose w1) ≠ ∅ ∧
  toDisposeOnEditorClose (dispose w1) ≠ ∅ ∧
  calls (dispose w1) = calls w1.
Proof.
  split; [|split].
  - intros H. apply (f_equal (λ m, m !! "file:///a.ts")) in H.
    vm_compute in H. discriminate.
  - intros H. apply (f_equal (λ m, m !! "file:///a.ts")) in H.
    vm_compute in H. discriminate.
  - vm_compute. reflexivity.
Qed.

Lemma close_exactly_once_witness :
  let w2 := decorate ids0 className0 uri0 update2 w1 in
  let w3 := fireOnDispose ids0 (MonacoEditor 1) w2 in
  calls w3 = calls w2 ++
    [(MonacoEditor 1, {| newDecorations := []; oldDecorations := ["1.0"] |})] ∧
  decorations w3 !! "file:///a.ts" = None ∧
  fireOnDispose ids0 (MonacoEditor 1) w3 = w3.
Proof.
  destruct (close_exactly_once ids0 className0 uri0 update1 update2 w0 widget0 1)
    as (_ & Hc & He & _ & H4 & _).
  - vm_compute. reflexivity.
  - reflexivity.
  - vm_compute. reflexivity.
  - vm_compute. reflexivity.
  - split; [exact Hc|]. split; [exact He|exact H4].
Defined.

(** * Further properties of the highlighting service *)

(** ** The merge *)

Lemma affected_filter_nil (newRanges : list SemanticHighlightingRange) (N : Z) :
  filter (λ r, (start_line r ∉ (list_to_set (start_line <$> newRanges) : gset Z))
               ∧ (start_line r < N)%Z) newRanges = [].
Proof.
  assert (∀ l : list SemanticHighlightingRange, l ⊆ newRanges →
    filter (λ r, (start_line r ∉ (list_to_set (start_line <$> newRanges) : gset Z))
                 ∧ (start_line r < N)%Z) l = []) as H; [|by apply H].
  induction l as [|r l IH]; intros Hsub; [done|].
  rewrite filter_cons_False.
  - apply IH. intros x Hx. apply Hsub. by right.
  - intros [Hr _]. apply Hr. apply elem_of_list_to_set, list_elem_of_fmap.
    exists r. split; [done|]. apply Hsub. by left.
Qed.

(** The same batch merged a second time, at the same line count, changes
    nothing. *)
Theorem mergeRanges_same_batch_twice (model : ITextModel)
    (oldRanges newRanges : list SemanticHighlightingRange) :
  mergeRanges model (mergeRanges model oldRanges newRanges) newRanges
  = mergeRanges model oldRanges newRanges.
Proof.
  unfold mergeRanges. rewrite filter_app, affected_filter_nil, app_nil_r.
  f_equal. rewrite list_filter_filter. apply list_filter_iff. tauto.
Qed.



(** Old ranges that all lie below the line count, on lines where no new
    range starts, are all kept. *)
Theorem mergeRanges_disjoint (model : ITextModel)
    (oldRanges newRanges : list SemanticHighlightingRange) :
  Forall (λ r, (start_line r < getLineCount model)%Z ∧
               Forall (λ n, start_line n ≠ start_line r) newRanges) oldRanges →
  mergeRanges model oldRanges newRanges = oldRanges ++ newRanges.
Proof.
  intros H. unfold mergeRanges. f_equal.
  induction H as [|r l [Hlt Hne] _ IH]; [done|].
  rewrite filter_cons_True; [by rewrite IH|].
  split; [|done].
  rewrite elem_of_list_to_set, list_elem_of_fmap. intros (n & Heq & Hn).
  rewrite Forall_forall in Hne. by apply (Hne n).
Qed.

(** ** The cache under updates *)

Lemma dispose_cancels_fields (w : World) :
  decorations (dispose w) = decorations w ∧
  toDisposeOnEditorClose (dispose w) = toDisposeOnEditorClose w.
Proof.
  unfold dispose.
  destruct (dispose_all_fields ((map_to_list (toDisposeOnEditorClose w)).*2) w)
    as (H1 & H2 & _). done.
Qed.

Section CacheFacts.

Variable ids :
  TextEditor → list (TextEditor * DeltaDecorationParams) → DeltaDecorationParams → list string.
Variable className : Z → string.

Lemma decorate_editorManager (uri : URI) (ranges : list SemanticHighlightingRange)
    (w : World) :
  editorManager (decorate ids className uri ranges w) = editorManager w.
Proof.
  unfold decorate. destruct (getByUri uri w) as [widget|]; [|done].
  destruct (editor widget); [|done].
  by destruct (toDisposeOnEditorClose w !! toString uri).
Qed.

Lemma decorate_calls (uri : URI) (ranges : list SemanticHighlightingRange)
    (w : World) (widget : EditorWidget) (id : nat) :
  getByUri uri w = Some widget →
  editor widget = MonacoEditor id →
  calls (decorate ids className uri ranges w)
  = calls w ++ [(MonacoEditor id, request className (MonacoEditor id) (toString uri) ranges w)].
Proof.
  intros Hw He.
  destruct (toDisposeOnEditorClose w !! toString uri) as [d|] eqn:Hd.
  - by rewrite (decorate_tracked _ _ _ _ _ _ _ _ Hw He Hd).
  - by rewrite (decorate_untracked _ _ _ _ _ _ _ Hw He Hd).
Qed.

(** Two updates in a row for a document with a Monaco editor make exactly two
    [deltaDecorations] calls, and the second hands back, as the decorations to
    remove, exactly the ids the first call answered with. *)
Theorem decorate_hands_back_ids (uri : URI) (r1 r2 : list SemanticHighlightingRange)
    (w : World) (widget : EditorWidget) (id : nat) :
  getByUri uri w = Some widget →
  editor widget = MonacoEditor id →
  let e := MonacoEditor id in
  let key := toString uri in
  let w1 := decorate ids className uri r1 w in
  let w2 := decorate ids className uri r2 w1 in
  calls w2 = calls w ++ [(e, request className e key r1 w); (e, request className e key r2 w1)] ∧
  oldDecorations (request className e key r2 w1) = ids e (calls w) (request className e key r1 w).
Proof.
  intros Hw He e key w1 w2.
  assert (getByUri uri w1 = Some widget) as Hw1.
  { unfold getByUri, w1. by rewrite decorate_editorManager. }
  split.
  - unfold w2. rewrite (decorate_calls _ _ _ _ _ Hw1 He).
    unfold w1 at 1. rewrite (decorate_calls _ _ _ _ _ Hw He).
    by rewrite <- app_assoc.
  - simpl. unfold cached, w1. by rewrite (decorate_entry _ _ _ _ _ _ _ Hw He).
Qed.

(** An update for a document with a Monaco editor registers at most one
    close listener, and the next update for it registers none and keeps the
    subscription. *)
Theorem decorate_subscribes_once (uri : URI) (r1 r2 : list SemanticHighlightingRange)
    (w : World) (widget : EditorWidget) (id : nat) :
  getByUri uri w = Some widget →
  editor widget = MonacoEditor id →
  let w1 := decorate ids className uri r1 w in
  let w2 := decorate ids className uri r2 w1 in
  is_Some (toDisposeOnEditorClose w1 !! toString uri) ∧
  (length (onDisposeListeners w1) ≤ S (length (onDisposeListeners w)))%nat ∧
  onDisposeListeners w2 = onDisposeListeners w1 ∧
  toDisposeOnEditorClose w2 = toDisposeOnEditorClose w1.
Proof.
  intros Hw He w1 w2.
  assert (getByUri uri w1 = Some widget) as Hw1.
  { unfold getByUri, w1. by rewrite decorate_editorManager. }
  assert (is_Some (toDisposeOnEditorClose w1 !! toString uri) ∧
          (length (onDisposeListeners w1) ≤ S (length (onDisposeListeners w)))%nat) as [Hs Hlen].
  { unfold w1. destruct (toDisposeOnEditorClose w !! toString uri) as [d|] eqn:Hd.
    - rewrite (decorate_tracked _ _ _ _ _ _ _ _ Hw He Hd). simpl.
      rewrite Hd. split; [by eexists|lia].
    - rewrite (decorate_untracked _ _ _ _ _ _ _ Hw He Hd). simpl.
      rewrite lookup_insert_eq, length_app. simpl. split; [by eexists|lia]. }
  split; [done|]. split; [done|].
  destruct Hs as [d Hd]. unfold w2.
  by rewrite (decorate_tracked _ _ _ _ _ _ _ _ Hw1 He Hd).
Qed.

(** An update leaves the entries and subscriptions of every other document
    as they were. *)
Theorem decorate_other_documents (uri : URI) (ranges : list SemanticHighlightingRange)
    (w : World) (key' : string) :
  key' ≠ toString uri →
  decorations (decorate ids className uri ranges w) !! key' = decorations w !! key' ∧
  toDisposeOnEditorClose (decorate ids className uri ranges w) !! key'
  = toDisposeOnEditorClose w !! key'.
Proof.
  intros Hne. unfold decorate.
  destruct (getByUri uri w) as [widget|]; [|done].
  destruct (editor widget); [|done].
  destruct (toDisposeOnEditorClose w !! toString uri); simpl.
  - by rewrite lookup_insert_ne.
  - by rewrite !lookup_insert_ne.
Qed.

Lemma deleteDecorations_delete (key : string) (e : TextEditor) (w : World) :
  decorations (deleteDecorations ids key e w) = delete key (decorations w) ∧
  toDisposeOnEditorClose (deleteDecorations ids key e w)
  = delete key (toDisposeOnEditorClose w).
Proof.
  unfold deleteDecorations.
  destruct (decorations w !! key) as [entry|] eqn:He; simpl;
    destruct (toDisposeOnEditorClose w !! key) as [d|] eqn:Hd; simpl;
    rewrite ?(delete_id _ _ He); done.
Qed.

(** [deleteDecorations] takes exactly the given document out of both maps,
    cached or not, and calls [deltaDecorations] only when it was cached. *)
Theorem deleteDecorations_maps (key : string) (e : TextEditor) (w : World) :
  decorations (deleteDecorations ids key e w) = delete key (decorations w) ∧
  toDisposeOnEditorClose (deleteDecorations ids key e w)
  = delete key (toDisposeOnEditorClose w) ∧
  calls (deleteDecorations ids key e w)
  = calls w ++
      match decorations w !! key with
      | Some entry =>
          [(e, {| newDecorations := [];
                  oldDecorations := DecorationWithRanges.decorations entry |})]
      | None => []
      end.
Proof.
  destruct (deleteDecorations_delete key e w) as [H1 H2].
  split; [done|]. split; [done|].
  unfold deleteDecorations.
  destruct (decorations w !! key) as [entry|]; simpl;
    destruct (toDisposeOnEditorClose w !! key) as [d|]; simpl;
    by rewrite ?app_nil_r.
Qed.

Lemma close_fold_other (rs : list Registration) (w : World) (key' : string) :
  Forall (λ r, l_key (reg_listener r) ≠ key') rs →
  let w' := foldl (λ w r, deleteDecorations ids (l_key (reg_listener r))
                            (l_editor (reg_listener r)) w) w rs in
  decorations w' !! key' = decorations w !! key' ∧
  toDisposeOnEditorClose w' !! key' = toDisposeOnEditorClose w !! key'.
Proof.
  intros H. revert w. induction H as [|r rs Hr _ IH]; intros w; [done|].
  simpl. destruct (IH (deleteDecorations ids (l_key (reg_listener r))
                         (l_editor (reg_listener r)) w)) as [H1 H2].
  rewrite H1, H2.
  destruct (deleteDecorations_delete (l_key (reg_listener r))
              (l_editor (reg_listener r)) w) as [-> ->].
  by rewrite !lookup_delete_ne.
Qed.

(** The close notification of an editor leaves alone every document that no
    listener of that editor was registered for. *)
Theorem fireOnDispose_other_documents (e : TextEditor) (w : World) (key' : string) :
  Forall (λ r, reg_editor r = e → l_key (reg_listener r) ≠ key') (onDisposeListeners w) →
  decorations (fireOnDispose ids e w) !! key' = decorations w !! key' ∧
  toDisposeOnEditorClose (fireOnDispose ids e w) !! key'
  = toDisposeOnEditorClose w !! key'.
Proof.
  intros H. unfold fireOnDispose. apply close_fold_other.
  apply Forall_forall. intros r [Hr Hin]%list_elem_of_filter.
  rewrite Forall_forall in H. by apply H.
Qed.

(** After [dispose], the close notification of an editor whose listeners
    were all held in [toDisposeOnEditorClose] runs nothing: the cached
    decorations of its document are never cleared. *)
Theorem dispose_then_close (e : TextEditor) (w : World) :
  Forall (λ r, reg_editor r = e →
               ∃ key, toDisposeOnEditorClose w !! key = Some (reg_id r))
         (onDisposeListeners w) →
  fireOnDispose ids e (dispose w) = dispose w ∧
  decorations (fireOnDispose ids e (dispose w)) = decorations w.
Proof.
  intros H.
  destruct (dispose_all_fields ((map_to_list (toDisposeOnEditorClose w)).*2) w)
    as (H1 & _ & _ & _ & H5).
  fold (dispose w) in H1, H5.
  assert (filter (λ r, reg_editor r = e) (onDisposeListeners (dispose w)) = []) as Hnil.
  { rewrite H5, list_filter_filter.
    rewrite Forall_forall in H.
    assert (∀ l : list Registration, l ⊆ onDisposeListeners w →
      filter (λ r, reg_editor r = e ∧
                   reg_id r ∉ (map_to_list (toDisposeOnEditorClose w)).*2) l = []) as Hl;
      [|by apply Hl].
    induction l as [|r l IH]; intros Hsub; [done|].
    rewrite filter_cons_False.
    - apply IH. intros x Hx. apply Hsub. by right.
    - intros [Hr Hid]. destruct (H r) as [key Hk]; [apply Hsub; by left|done|].
      apply Hid. apply list_elem_of_fmap. exists (key, reg_id r).
      split; [done|]. by apply elem_of_map_to_list. }
  assert (fireOnDispose ids e (dispose w) = dispose w) as ->.
  { unfold fireOnDispose. by rewrite Hnil. }
  done.
Qed.

(** ** What every run of the service keeps *)

Lemma close_fold_invariant (P : World → Prop) (rs : list Registration) (w : World) :
  (∀ key e w, P w → P (deleteDecorations ids key e w)) →
  P w →
  P (foldl (λ w r, deleteDecorations ids (l_key (reg_listener r))
                     (l_editor (reg_listener r)) w) w rs).
Proof.
  intros Hstep. revert w. induction rs as [|r rs IH]; intros w Hw; [done|].
  simpl. apply IH. by apply Hstep.
Qed.

Lemma deleteDecorations_same_documents (key : string) (e : TextEditor) (w : World) :
  same_documents w → same_documents (deleteDecorations ids key e w).
Proof.
  unfold same_documents. intros H.
  destruct (deleteDecorations_delete key e w) as [-> ->].
  by rewrite !dom_delete_L, H.
Qed.

Lemma decorate_same_documents (uri : URI) (ranges : list SemanticHighlightingRange)
    (w : World) :
  same_documents w → same_documents (decorate ids className uri ranges w).
Proof.
  unfold same_documents, decorate. intros H.
  destruct (getByUri uri w) as [widget|]; [|done].
  destruct (editor widget); [|done].
  destruct (toDisposeOnEditorClose w !! toString uri) as [d|] eqn:Hd; simpl.
  - apply elem_of_dom_2 in Hd. rewrite dom_insert_L, H.
    apply (anti_symm (⊆)).
    + apply union_least; [by apply singleton_subseteq_l|done].
    + apply union_subseteq_r.
  - by rewrite !dom_insert_L, H.
Qed.

(** Along every run, the two maps track the same documents: a document has
    a cached entry exactly when it has a stored close subscription. *)
Theorem run_same_documents (w w' : World) :
  rtc (step ids className) w w' →
  same_documents w →
  same_documents w'.
Proof.
  intros Hrun Hw. induction Hrun as [|w1 w2 w3 Hstep _ IH]; [done|].
  apply IH. destruct Hstep as [uri ranges w1|e w1|w1|w1 w2 Hd Ht _ _ _].
  - by apply decorate_same_documents.
  - unfold fireOnDispose. apply close_fold_invariant; [|done].
    intros. by apply deleteDecorations_same_documents.
  - unfold same_documents.
    destruct (dispose_cancels_fields w1) as [-> ->]. done.
  - unfold same_documents. by rewrite Hd, Ht.
Qed.

Section RunParity.

Hypothesis one_id_per_decoration :
  ∀ e h p, length (ids e h p) = length (newDecorations p).

Lemma decorate_all_parity (uri : URI) (ranges : list SemanticHighlightingRange)
    (w : World) :
  all_parity w → all_parity (decorate ids className uri ranges w).
Proof.
  unfold all_parity, decorate. intros H.
  destruct (getByUri uri w) as [widget|]; [|done].
  destruct (editor widget); [|done].
  destruct (toDisposeOnEditorClose w !! toString uri) as [d|]; simpl;
    (apply map_Forall_insert_2; [|done]); simpl;
    rewrite one_id_per_decoration; simpl; by rewrite length_fmap.
Qed.

Lemma deleteDecorations_all_parity (key : string) (e : TextEditor) (w : World) :
  all_parity w → all_parity (deleteDecorations ids key e w).
Proof.
  unfold all_parity. intros H.
  destruct (deleteDecorations_delete key e w) as [-> _].
  by apply map_Forall_delete.
Qed.

(** Along every run, with an editor that answers one id per added
    decoration, every cached entry of every document has as many decoration
    ids as ranges. *)
Theorem run_all_parity (w w' : World) :
  rtc (step ids className) w w' →
  all_parity w →
  all_parity w'.
Proof.
  intros Hrun Hw. induction Hrun as [|w1 w2 w3 Hstep _ IH]; [done|].
  apply IH. destruct Hstep as [uri ranges w1|e w1|w1|w1 w2 Hd _ _ _ _].
  - by apply decorate_all_parity.
  - unfold fireOnDispose. apply close_fold_invariant; [|done].
    intros. by apply deleteDecorations_all_parity.
  - unfold all_parity.
    destruct (dispose_cancels_fields w1) as [-> _]. done.
  - unfold all_parity. by rewrite Hd.
Qed.

End RunParity.

End CacheFacts.

(** * Properties of the resource provider *)

Import DefaultResourceProvider.

Example get_second_resolver :
  get nonempty (Some [named "a" (Rejected "no"); named "b" (Fulfilled "res"); named "c" (Fulfilled "other")])
    uri0 []
  = (Promise (Fulfilled (a_resource "res")), ["a"; "b"]).
Proof. vm_compute. reflexivity. Qed.

Section ProviderFacts.

Context {Resource Reason Host : Type}.
Variable truthy : Reason → bool.

Implicit Types (p : ResourceResolver Resource Reason Host)
  (ps : list (ResourceResolver Resource Reason Host)) (h : Host).

Lemma fold_catch_fulfilled ps (uri : URI) (r : Resource) h :
  foldl (λ current provider, catch current (λ _ h, resolve provider uri h))
    (Fulfilled r, h) ps
  = (Fulfilled r, h).
Proof. induction ps as [|p ps IH]; [done|]. simpl. apply IH. Qed.

Lemma fold_catch_attempt ps (uri : URI) (e : Reason) h :
  foldl (λ current provider, catch current (λ _ h, resolve provider uri h))
    (Rejected e, h) ps
  = attempt ps uri e h.
Proof.
  revert e h. induction ps as [|p ps IH]; intros e h; [done|].
  simpl. destruct (resolve p uri h) as [[r|e'] h'].
  - apply fold_catch_fulfilled.
  - apply IH.
Qed.

Lemma attempt_stops ps1 p ps2 (uri : URI) (e : Reason) h :
  (∀ h, ∃ res h', resolve p uri h = (Fulfilled res, h')) →
  attempt (ps1 ++ p :: ps2) uri e h = attempt (ps1 ++ [p]) uri e h ∧
  ∃ res h', attempt (ps1 ++ [p]) uri e h = (Fulfilled res, h').
Proof.
  intros Hp. revert e h. induction ps1 as [|q ps1 IH]; intros e h; simpl.
  - destruct (Hp h) as (res & h' & ->). eauto.
  - destruct (resolve q uri h) as [[r|e'] h']; [eauto|apply IH].
Qed.

Lemma attempt_all_rejected ps p (uri : URI) (reason e : Reason) h :
  Forall (λ q, ∀ h, ∃ e h', resolve q uri h = (Rejected e, h')) ps →
  (∀ h, ∃ h', resolve p uri h = (Rejected reason, h')) →
  ∃ h', attempt (ps ++ [p]) uri e h = (Rejected reason, h').
Proof.
  intros Hps Hp. revert e h. induction Hps as [|q ps Hq _ IH]; intros e h; simpl.
  - destruct (Hp h) as (h' & ->). eauto.
  - destruct (Hq h) as (e' & h' & ->). apply IH.
Qed.

(** When a resolver that always provides the resource is in the list, [get]
    is fulfilled with a resource, and the resolvers after it are not asked:
    the outcome and the host are those of the list cut after it. *)
Theorem get_stops_at_success ps1 p ps2 (uri : URI) h :
  (∀ h, ∃ res h', resolve p uri h = (Fulfilled res, h')) →
  get truthy (Some (ps1 ++ p :: ps2)) uri h = get truthy (Some (ps1 ++ [p])) uri h ∧
  ∃ res h', get truthy (Some (ps1 ++ [p])) uri h = (Promise (Fulfilled (a_resource res)), h').
Proof.
  intros Hp. destruct ps1 as [|q ps1]; simpl.
  - destruct (Hp h) as (res & h' & ->). rewrite !fold_catch_fulfilled. eauto.
  - destruct (resolve q uri h) as [[r|e] h'].
    + rewrite !fold_catch_fulfilled. eauto.
    + rewrite !fold_catch_attempt.
      destruct (attempt_stops ps1 p ps2 uri e h' Hp) as (-> & res & h'' & ->). eauto.
Qed.

(** When every resolver rejects, [get] is not rejected: it is fulfilled with
    the reason of the last resolver, or with the message when that reason is
    falsy. *)
Theorem get_all_rejected ps p (uri : URI) (reason : Reason) h :
  Forall (λ q, ∀ h, ∃ e h', resolve q uri h = (Rejected e, h')) ps →
  (∀ h, ∃ h', resolve p uri h = (Rejected reason, h')) →
  ∃ h', get truthy (Some (ps ++ [p])) uri h
        = (Promise (Fulfilled
             (if truthy reason then a_reason reason
              else a_message (createNotRegisteredError uri))), h').
Proof.
  intros Hps Hp. destruct Hps as [|q ps Hq Hps]; simpl.
  - destruct (Hp h) as (h' & ->). simpl. eauto.
  - destruct (Hq h) as (e & h' & ->). rewrite fold_catch_attempt.
    destruct (attempt_all_rejected ps p uri reason e h' Hps Hp) as (h'' & ->). eauto.
Qed.

(** The promise of [get] is rejected in one case only: no list of resolvers
    at all; then the reason is the message and no resolver was asked. *)
Theorem get_rejected_iff (resolvers : option (list (ResourceResolver Resource Reason Host)))
    (uri : URI) (msg : string) h h' :
  get truthy resolvers uri h = (Promise (Rejected msg), h') ↔
  resolvers = None ∧ msg = createNotRegisteredError uri ∧ h' = h.
Proof.
  split.
  - destruct resolvers as [[|first rest]|]; simpl.
    + discriminate.
    + destruct (foldl _ _ _) as [[r|e] h'']; discriminate.
    + intros [= <- <-]. done.
  - intros (-> & -> & ->). reflexivity.
Qed.

(** [get] throws, instead of returning a promise, exactly when the list of
    resolvers is there but empty. *)
Theorem get_throws_iff (resolvers : option (list (ResourceResolver Resource Reason Host)))
    (uri : URI) h :
  (get truthy resolvers uri h).1 = Throws_TypeError ↔ resolvers = Some [].
Proof.
  split.
  - destruct resolvers as [[|first rest]|]; simpl; [done| |done].
    destruct (foldl _ _ _) as [[r|e] h'']; discriminate.
  - intros ->. reflexivity.
Qed.

End ProviderFacts.

(** * Properties of the storage service *)

Section StorageFacts.

Import LocalStorageService.

Variable T : Type.
Variable text_length : string → nat.
Variable stringify : T → Result string.
Variable parse : string → Result T.
Variable assign_error : gmap string string → string → string → option string.

Lemma prefix_inj (st : t) (key key' : string) :
  prefix st key = prefix st key' → key = key'.
Proof.
  unfold prefix. intros H.
  apply (inj (String.app _)) in H. apply (inj (String.app _)) in H.
  by apply (inj (String.app _)) in H.
Qed.

Lemma setData_window (key : string) (data : option T) (st : t) :
  window (LocalStorageService.setData T text_length stringify assign_error key data st) = window st.
Proof.
  unfold LocalStorageService.setData, try_store.
  destruct data as [d|]; [|done].
  destruct (isLocalStorageFull st); [done|].
  destruct (stringify d) as [json|e]; [|by destruct (messageService st)].
  destruct (web st); [|done].
  destruct (assign_error _ _ _); [|done]. by destruct (messageService st).
Qed.

Lemma setData_prefix (key key' : string) (data : option T) (st : t) :
  prefix (LocalStorageService.setData T text_length stringify assign_error key data st) key' = prefix st key'.
Proof. unfold prefix. by rewrite setData_window. Qed.

(** What [setData] can do to the items: nothing, one item assigned, one item
    deleted, always under the prefixed key. *)
Lemma setData_storage (key : string) (data : option T) (st : t) :
  storage (LocalStorageService.setData T text_length stringify assign_error key data st) = storage st ∨
  (∃ json, storage (LocalStorageService.setData T text_length stringify assign_error key data st) = <[prefix st key := json]> (storage st)) ∨
  storage (LocalStorageService.setData T text_length stringify assign_error key data st) = delete (prefix st key) (storage st).
Proof.
  unfold LocalStorageService.setData, try_store.
  destruct data as [d|]; [|by right; right].
  destruct (isLocalStorageFull st); [by left|].
  destruct (stringify d) as [json|e]; [|left; by destruct (messageService st)].
  destruct (web st); [|right; left; by eexists].
  destruct (assign_error _ _ _); [|right; left; by eexists].
  left. by destruct (messageService st).
Qed.

Lemma stored_then_read (key : string) (d : T) (defaultValue : option T)
    (st : t) (json : string) :
  fullstorage st = false →
  stringify d = Ok json →
  parse json = Ok d →
  (web st = true → assign_error (storage st) (prefix st key) json = None) →
  LocalStorageService.getData T parse key defaultValue (LocalStorageService.setData T text_length stringify assign_error key (Some d) st) = Ok (Some d).
Proof.
  intros Hfull Hjson Hparse Hquota.
  unfold LocalStorageService.getData. rewrite setData_prefix.
  unfold LocalStorageService.setData, try_store, isLocalStorageFull.
  rewrite Hfull, Hjson.
  destruct (web st) eqn:Hweb.
  - rewrite Hquota by done. simpl. by rewrite lookup_insert_eq, Hparse.
  - simpl. by rewrite lookup_insert_eq, Hparse.
Qed.

(** Data stored is data read back, when the storage has not been found full,
    the data has a JSON text that parses back to it, and the local storage
    takes the item. *)
Theorem setData_getData (key : string) (d : T) (defaultValue : option T)
    (st : t) (json : string) :
  fullstorage st = false →
  stringify d = Ok json →
  parse json = Ok d →
  (web st = true → assign_error (storage st) (prefix st key) json = None) →
  LocalStorageService.getData T parse key defaultValue
    (LocalStorageService.setData T text_length stringify assign_error key (Some d) st)
  = Ok (Some d).
Proof. apply stored_then_read. Qed.

(** Storing or deleting under one key never changes what is read under
    another key. *)
Theorem setData_other_key (key key' : string) (data defaultValue : option T) (st : t) :
  key' ≠ key →
  LocalStorageService.getData T parse key' defaultValue (LocalStorageService.setData T text_length stringify assign_error key data st) = LocalStorageService.getData T parse key' defaultValue st.
Proof.
  intros Hne. unfold LocalStorageService.getData. rewrite setData_prefix.
  assert (prefix st key ≠ prefix st key') as Hp.
  { intros H. apply Hne. symmetry. by apply prefix_inj in H. }
  destruct (setData_storage key data st) as [-> | [[json ->] | ->]].
  - done.
  - by rewrite lookup_insert_ne.
  - by rewrite lookup_delete_ne.
Qed.


Lemma setData_full (key : string) (data : option T) (st : t) :
  fullstorage st = true →
  fullstorage (LocalStorageService.setData T text_length stringify assign_error key data st) = true ∧ storage (LocalStorageService.setData T text_length stringify assign_error key data st) ⊆ storage st.
Proof.
  intros Hfull. unfold LocalStorageService.setData, try_store, isLocalStorageFull.
  rewrite Hfull. destruct data as [d|]; simpl.
  - done.
  - split; [done|]. apply delete_subseteq.
Qed.

(** Once the storage is marked as full it stays so, and no sequence of
    [setData] calls stores anything again: items can only go. *)
Theorem full_storage_never_grows (ops : list (string * option T)) (st : t) :
  fullstorage st = true →
  let st' := foldl (λ st op, LocalStorageService.setData T text_length stringify assign_error op.1 op.2 st) st ops in
  fullstorage st' = true ∧ storage st' ⊆ storage st.
Proof.
  revert st. induction ops as [|[key data] ops IH]; intros st Hfull; [done|].
  simpl. destruct (setData_full key data st Hfull) as [Hf Hs].
  destruct (IH _ Hf) as [Hf' Hs']. split; [done|].
  by trans (storage (LocalStorageService.setData T text_length stringify assign_error key data st)).
Qed.

End StorageFacts.

(** * Properties of the remote history *)

Section HistoryFacts.

Import ElectronRemoteContribution.

Lemma indexOf_None (x : string) (l : list string) :
  indexOf x l = None ↔ x ∉ l.
Proof.
  induction l as [|y l IH]; simpl.
  - split; [intros _; apply not_elem_of_nil|done].
  - destruct (String.eqb_spec y x) as [->|Hne].
    + split; [done|]. intros H. destruct H. by left.
    + rewrite fmap_None, IH, not_elem_of_cons. split; [by split|by intros [_ ?]].
Qed.

Lemma indexOf_Some (x : string) (l : list string) (i : nat) :
  indexOf x l = Some i →
  l = take i l ++ x :: drop (S i) l ∧ x ∉ take i l.
Proof.
  revert i. induction l as [|y l IH]; intros i; simpl; [done|].
  destruct (String.eqb_spec y x) as [->|Hne].
  - intros [= <-]. simpl. rewrite drop_0. split; [done|apply not_elem_of_nil].
  - intros (j & Hj & ->)%fmap_Some. destruct (IH j Hj) as [Hl Hnot].
    simpl. split; [by rewrite <- Hl|].
    rewrite not_elem_of_cons. split; [done|done].
Qed.

Lemma indexOf_end (x : string) (l : list string) :
  x ∉ l → indexOf x (l ++ [x]) = Some (length l).
Proof.
  induction l as [|y l IH]; simpl; intros Hnot.
  - by rewrite String.eqb_refl.
  - apply not_elem_of_cons in Hnot as [Hne Hnot].
    destruct (String.eqb_spec y x) as [->|_]; [done|].
    by rewrite IH.
Qed.

Lemma remembered_fresh (x : string) (l : list string) :
  x ∉ l → remembered x l = l ++ [x].
Proof. intros H%indexOf_None. unfold remembered. by rewrite H. Qed.

Lemma remembered_found (x : string) (l : list string) (i : nat) :
  indexOf x l = Some i →
  remembered x l = (take i l ++ drop (S i) l) ++ [x].
Proof.
  intros H. unfold remembered. rewrite H. by rewrite delete_take_drop.
Qed.

Lemma remembered_end (x : string) (l : list string) :
  x ∉ l → remembered x (l ++ [x]) = l ++ [x].
Proof.
  intros H. unfold remembered. rewrite (indexOf_end _ _ H).
  rewrite delete_take_drop, take_app_length.
  rewrite drop_ge by (rewrite length_app; simpl; lia). by rewrite app_nil_r.
Qed.

(** The array [remember] stores ends with the encoded URL, holds every other
    entry as before and in the same order, and is at most one longer. *)
Theorem remembered_others (encoded : string) (history : list string) :
  last (remembered encoded history) = Some encoded ∧
  filter (λ entry, entry ≠ encoded) (remembered encoded history)
  = filter (λ entry, entry ≠ encoded) history ∧
  (length (remembered encoded history) ≤ S (length history))%nat.
Proof.
  destruct (indexOf encoded history) as [i|] eqn:Hi.
  - rewrite (remembered_found _ _ _ Hi).
    destruct (indexOf_Some _ _ _ Hi) as [Hl _].
    split; [apply last_snoc|]. split.
    + rewrite Hl at 3. rewrite !filter_app, filter_cons_False by (intros H; by apply H).
      rewrite (filter_cons_False _ encoded) by (intros H; by apply H).
      by rewrite app_nil_r.
    + apply (f_equal length) in Hl. rewrite !length_app in *. simpl in *. lia.
  - apply indexOf_None in Hi. rewrite (remembered_fresh _ _ Hi).
    split; [apply last_snoc|]. split.
    + rewrite filter_app, filter_cons_False by (intros H; by apply H).
      by rewrite app_nil_r.
    + rewrite length_app. simpl. lia.
Qed.

(** A history without doubles stays without doubles, and remembering the
    same URL again changes nothing. *)
Theorem remembered_nodup (encoded : string) (history : list string) :
  NoDup history →
  NoDup (remembered encoded history) ∧
  remembered encoded (remembered encoded history) = remembered encoded history.
Proof.
  intros Hnd.
  assert (∃ l, remembered encoded history = l ++ [encoded] ∧ NoDup l ∧ encoded ∉ l)
    as (l & -> & Hl & Hnot).
  { destruct (indexOf encoded history) as [i|] eqn:Hi.
    - rewrite (remembered_found _ _ _ Hi).
      destruct (indexOf_Some _ _ _ Hi) as [Hsplit Hbefore].
      rewrite Hsplit in Hnd.
      apply NoDup_app in Hnd as (H1 & H2 & H3).
      apply NoDup_cons in H3 as [H3 H4].
      eexists. split; [done|]. split.
      + apply NoDup_app. split; [done|]. split; [|done].
        intros x Hx Hx'. apply (H2 x Hx). by right.
      + rewrite elem_of_app. intros [?|?]; done.
    - apply indexOf_None in Hi. rewrite (remembered_fresh _ _ Hi). eauto. }
  split.
  - apply NoDup_app. split; [done|]. split; [|apply NoDup_singleton].
    intros x Hx ->%list_elem_of_singleton. done.
  - by apply remembered_end.
Qed.

Import ResponseStatus.

(** [display] shown again shows the same text and changes nothing more; it
    never changes the URL or the status. When the status object carries an
    error after the call, the text is that error's, and the error is the one
    it had, or [Unresolved] when it had none and its status was missing or
    empty. When it carries none, the status was there and not empty, the text
    is that status and the object is as it was. *)
Theorem display_stable (s : ResponseStatus.t) :
  display (display s).2 = display s ∧
  url (display s).2 = url s ∧
  status (display s).2 = status s ∧
  match error (display s).2 with
  | Some err =>
      (display s).1 = "Error: " +:+ message err ∧
      match error s with
      | Some before => err = before
      | None =>
          err = {| message := "Unresolved" |} ∧
          (status s = None ∨ status s = Some "")
      end
  | None =>
      ∃ text, status s = Some text ∧ text ≠ "" ∧
              (display s).1 = "Status: " +:+ text ∧ (display s).2 = s
  end.
Proof.
  unfold display. destruct s as [u [text|] [err|]]; simpl.
  - done.
  - unfold truthy. destruct (String.eqb_spec text "") as [->|Hne]; simpl.
    + split; [done|]. split; [done|]. split; [done|]. split; [done|].
      split; [done|by right].
    + destruct (String.eqb_spec text "") as [->|_]; [done|]. simpl.
      split; [done|]. split; [done|]. split; [done|]. by exists text.
  - done.
  - split; [done|]. split; [done|]. split; [done|]. split; [done|].
    split; [done|by left].
Qed.

End HistoryFacts.

(** ** The history kept in the local storage *)

Section StoredHistoryFacts.

Import ElectronRemoteContribution.

Variable text_length : string → nat.
Variable stringify : list string → Result string.
Variable parse : string → Result (list string).
Variable assign_error : gmap string string → string → string → option string.
Variable encodeURI : string → Result string.
Variable decodeURI : string → Result string.

Lemma map_throwing_sublist {A B} (f : A → Result B) (l1 l : list A) (ys : list B) :
  l1 `sublist_of` l →
  map_throwing f l = Ok ys →
  ∃ ys1, map_throwing f l1 = Ok ys1 ∧ ys1 `sublist_of` ys.
Proof.
  intros Hsub. revert ys.
  induction Hsub as [|x l1 l Hsub IH|x l1 l Hsub IH]; intros ys; simpl.
  - intros [= <-]. by exists [].
  - destruct (f x) as [y|]; [|done].
    destruct (map_throwing f l) as [ys'|]; [|done].
    intros [= <-]. destruct (IH ys' eq_refl) as (ys1 & -> & Hys1).
    exists (y :: ys1). split; [done|]. by constructor.
  - destruct (f x) as [y|]; [|done].
    destruct (map_throwing f l) as [ys'|]; [|done].
    intros [= <-]. destruct (IH ys' eq_refl) as (ys1 & -> & Hys1).
    exists ys1. split; [done|]. by constructor.
Qed.

Lemma map_throwing_snoc {A B} (f : A → Result B) (l : list A) (x : A)
    (ys : list B) (y : B) :
  map_throwing f l = Ok ys →
  f x = Ok y →
  map_throwing f (l ++ [x]) = Ok (ys ++ [y]).
Proof.
  intros Hl Hx. revert ys Hl. induction l as [|a l IH]; intros ys; simpl.
  - intros [= <-]. by rewrite Hx.
  - destruct (f a) as [b|]; [|done].
    destruct (map_throwing f l) as [ys'|]; [|done].
    intros [= <-]. by rewrite (IH ys' eq_refl).
Qed.

Lemma map_throwing_length {A B} (f : A → Result B) (l : list A) (ys : list B) :
  map_throwing f l = Ok ys → length ys = length l.
Proof.
  revert ys. induction l as [|x l IH]; intros ys; simpl.
  - by intros [= <-].
  - destruct (f x) as [y|]; [|done].
    destruct (map_throwing f l) as [ys'|]; [|done].
    intros [= <-]. simpl. by rewrite (IH ys' eq_refl).
Qed.

Lemma remembered_sublist (encoded : string) (stored : list string) :
  ∃ kept,
    remembered encoded stored = kept ++ [encoded] ∧
    kept `sublist_of` stored ∧
    (length stored ≤ S (length kept))%nat ∧
    (encoded ∉ stored → kept = stored).
Proof.
  unfold remembered. destruct (indexOf encoded stored) as [i|] eqn:Hi.
  - eexists. split; [done|]. split; [apply sublist_delete|]. split.
    + destruct (indexOf_Some _ _ _ Hi) as [Hl _].
      rewrite delete_take_drop. apply (f_equal length) in Hl.
      rewrite !length_app in *. simpl in Hl. lia.
    + intros Hnot. apply indexOf_None in Hnot. congruence.
  - eexists. split; [done|]. split; [done|]. split; [lia|done].
Qed.

(** A URL remembered is the last of the history read afterwards, after the
    URLs that were there, in their order, none new and at most one left out;
    none is left out when the encoded URL was not stored yet. This needs a
    storage not marked as full that takes the item, a stored history that can
    be read, a URL that codes to a text that is not empty, and JSON and URI
    coding that give back what was coded. *)
Theorem remember_then_history (url encoded json : string)
    (stored urls : list string) (st : LocalStorageService.t) :
  LocalStorageService.fullstorage st = false →
  encodeURI url = Ok encoded →
  encoded ≠ "" →
  decodeURI encoded = Ok url →
  LocalStorageService.getData (list string) parse ElectronRemoteHistory.KEY (Some []) st
  = Ok (Some stored) →
  map_throwing decodeURI stored = Ok urls →
  stringify (remembered encoded stored) = Ok json →
  parse json = Ok (remembered encoded stored) →
  (LocalStorageService.web st = true →
   assign_error (LocalStorageService.storage st)
     (LocalStorageService.prefix st ElectronRemoteHistory.KEY) json = None) →
  ∃ st' before,
    remember (LocalStorageService.service (list string) text_length stringify parse assign_error)
      encodeURI url st = Ok st' ∧
    history (LocalStorageService.service (list string) text_length stringify parse assign_error)
      decodeURI st' = Ok (before ++ [url]) ∧
    before `sublist_of` urls ∧
    (length urls ≤ S (length before))%nat ∧
    (encoded ∉ stored → before = urls).
Proof.
  intros Hfull Henc Hne Hdec Hget Hurls Hjson Hparse Hquota.
  destruct (remembered_sublist encoded stored) as (kept & Hkept & Hsub & Hlen & Hsame).
  destruct (map_throwing_sublist decodeURI kept stored urls Hsub Hurls)
    as (before & Hbefore & Hbsub).
  exists (LocalStorageService.setData (list string) text_length stringify assign_error
            ElectronRemoteHistory.KEY (Some (remembered encoded stored)) st), before.
  split; [|split; [|split; [done|split]]].
  - unfold remember. simpl. rewrite Hget, Henc.
    unfold ResponseStatus.truthy.
    destruct (String.eqb_spec encoded "") as [->|_]; [done|]. reflexivity.
  - unfold history. simpl.
    rewrite (stored_then_read _ text_length stringify parse assign_error _ _ _ _ json
               Hfull Hjson Hparse Hquota).
    rewrite Hkept. by apply map_throwing_snoc.
  - rewrite (map_throwing_length _ _ _ Hurls), (map_throwing_length _ _ _ Hbefore). done.
  - intros Hnot. rewrite (Hsame Hnot) in Hbefore. congruence.
Qed.

(** After [clearHistory] the history reads as empty, whatever the storage
    held and even when it is marked as full. *)
Theorem clearHistory_then_history (st : LocalStorageService.t) :
  history (LocalStorageService.service (list string) text_length stringify parse assign_error)
    decodeURI
    (clearHistory (LocalStorageService.service (list string) text_length stringify parse assign_error) st)
  = Ok [].
Proof.
  unfold history, clearHistory. simpl.
  unfold LocalStorageService.getData. simpl.
  change (LocalStorageService.prefix _ ElectronRemoteHistory.KEY)
    with (LocalStorageService.prefix st ElectronRemoteHistory.KEY).
  by rewrite lookup_delete_eq.
Qed.

(** With the storage marked as full, [remember] stores nothing: when it
    returns, the service is as it was. *)
Theorem remember_when_full (url : string) (st st' : LocalStorageService.t) :
  LocalStorageService.fullstorage st = true →
  remember (LocalStorageService.service (list string) text_length stringify parse assign_error)
    encodeURI url st = Ok st' →
  st' = st.
Proof.
  intros Hfull. unfold remember. simpl.
  destruct (LocalStorageService.getData _ _ _ _ _) as [[stored|]|]; [| |done].
  - destruct (encodeURI url) as [encoded|]; [|done].
    destruct (ResponseStatus.truthy encoded); [|by intros [= <-]].
    intros [= <-]. unfold LocalStorageService.setData, LocalStorageService.try_store,
      LocalStorageService.isLocalStorageFull. by rewrite Hfull.
  - destruct (encodeURI url) as [encoded|]; [|done].
    destruct (ResponseStatus.truthy encoded); [done|by intros [= <-]].
Qed.

End StoredHistoryFacts.

(** * The further properties at the samples *)

Example storage_round_trip :
  LocalStorageService.getData (list string) Sample.parse0 "k" None
    (LocalStorageService.setData (list string) String.length Sample.stringify0 Sample.assign_error0
       "k" (Some ["a"; "b"]) Sample.st0)
  = Ok (Some ["a"; "b"]).
Proof. vm_compute. reflexivity. Qed.

Example storage_full_flag :
  LocalStorageService.fullstorage Sample.st_full = true ∧
  LocalStorageService.messageService Sample.st_full
  = Some ["Web storage quota: " +:+ LocalStorageService.newline +:+ "  QuotaExceededError "
          +:+ LocalStorageService.newline +:+ " current size: 0 bytes"].
Proof. vm_compute. split; reflexivity. Qed.

Example history_of_two :
  let remember := ElectronRemoteContribution.remember Sample.service0 Sample.code0 in
  match remember "http://a" Sample.st0 with
  | Ok st1 =>
      match remember "http://b" st1 with
      | Ok st2 =>
          match remember "http://a" st2 with
          | Ok st3 => ElectronRemoteContribution.history Sample.service0 Sample.code0 st3
          | Throws e => Throws e
          end
      | Throws e => Throws e
      end
  | Throws e => Throws e
  end = Ok ["http://b"; "http://a"].
Proof. vm_compute. reflexivity. Qed.

Lemma mergeRanges_disjoint_witness :
  mergeRanges {| getLineCount := 100 |} update1 update3 = update1 ++ update3.
Proof.
  apply (mergeRanges_disjoint {| getLineCount := 100 |} update1 update3).
  unfold update1, update3, mkRange, start_line.
  apply Forall_cons_2; [|apply Forall_nil_2]. split; [simpl; lia|].
  apply Forall_cons_2; [|apply Forall_nil_2]. simpl. lia.
Defined.

Lemma decorate_hands_back_ids_witness :
  let w2 := decorate ids0 className0 uri0 update2 w1 in
  oldDecorations (request className0 (MonacoEditor 1) "file:///a.ts" update2 w1) = ["0.0"] ∧
  length (calls w2) = 2.
Proof.
  destruct (decorate_hands_back_ids ids0 className0 uri0 update1 update2 w0 widget0 1)
    as [Hcalls Hold].
  - vm_compute. reflexivity.
  - reflexivity.
  - split; [exact Hold|]. simpl in Hcalls. fold w1 in Hcalls. by rewrite Hcalls.
Defined.

Lemma decorate_subscribes_once_witness :
  onDisposeListeners (decorate ids0 className0 uri0 update2 w1) = onDisposeListeners w1.
Proof.
  destruct (decorate_subscribes_once ids0 className0 uri0 update1 update2 w0 widget0 1)
    as (_ & _ & H & _).
  - vm_compute. reflexivity.
  - reflexivity.
  - exact H.
Defined.

Lemma decorate_other_documents_witness :
  decorations (decorate ids0 className0 {| toString := "file:///z.ts" |} update2 w1)
    !! "file:///a.ts"
  = decorations w1 !! "file:///a.ts".
Proof.
  destruct (decorate_other_documents ids0 className0 {| toString := "file:///z.ts" |}
              update2 w1 "file:///a.ts") as [H _].
  - simpl. discriminate.
  - exact H.
Defined.

Lemma fireOnDispose_other_documents_witness :
  decorations (fireOnDispose ids0 (MonacoEditor 1) w1) !! "file:///z.ts"
  = decorations w1 !! "file:///z.ts".
Proof.
  destruct (fireOnDispose_other_documents ids0 (MonacoEditor 1) w1 "file:///z.ts")
    as [H _].
  - vm_compute. repeat constructor. intros _. discriminate.
  - exact H.
Defined.

Lemma dispose_then_close_witness :
  fireOnDispose ids0 (MonacoEditor 1) (dispose w1) = dispose w1 ∧
  decorations (fireOnDispose ids0 (MonacoEditor 1) (dispose w1)) = decorations w1.
Proof.
  apply (dispose_then_close ids0 (MonacoEditor 1) w1).
  vm_compute. repeat constructor. intros _. exists "file:///a.ts". reflexivity.
Defined.

Lemma w0_runs_to_disposed :
  rtc (step ids0 className0) w0 (dispose (fireOnDispose ids0 (MonacoEditor 1) w1)).
Proof.
  eapply rtc_l; [apply (step_decorate ids0 className0 uri0 update1)|].
  eapply rtc_l; [apply (step_close ids0 className0 (MonacoEditor 1))|].
  apply rtc_once. apply step_dispose.
Qed.

Lemma run_same_documents_witness :
  same_documents (dispose (fireOnDispose ids0 (MonacoEditor 1) w1)).
Proof.
  apply (run_same_documents ids0 className0 w0 _ w0_runs_to_disposed).
  reflexivity.
Defined.

Lemma run_all_parity_witness :
  all_parity (dispose (fireOnDispose ids0 (MonacoEditor 1) w1)).
Proof.
  apply (run_all_parity ids0 className0 ids0_one_id_per_decoration w0 _
           w0_runs_to_disposed).
  unfold all_parity. simpl. apply map_Forall_empty.
Defined.

Lemma get_stops_at_success_witness :
  get nonempty
    (Some ([named "a" (Rejected "no")] ++ named "b" (Fulfilled "res")
             :: [named "c" (Fulfilled "other")])) uri0 []
  = get nonempty (Some ([named "a" (Rejected "no")] ++ [named "b" (Fulfilled "res")])) uri0 [].
Proof.
  apply (get_stops_at_success nonempty [named "a" (Rejected "no")]
           (named "b" (Fulfilled "res")) [named "c" (Fulfilled "other")] uri0 []).
  intros h. exists "res", (h ++ ["b"]). reflexivity.
Defined.

Lemma get_all_rejected_witness :
  ∃ h', get nonempty (Some ([named "a" (Rejected "no")] ++ [named "b" (Rejected "")])) uri0 []
        = (Promise (Fulfilled (a_message (createNotRegisteredError uri0))), h').
Proof.
  apply (get_all_rejected nonempty [named "a" (Rejected "no")] (named "b" (Rejected ""))
           uri0 "" []).
  - repeat constructor. intros h. exists "no", (h ++ ["a"]). reflexivity.
  - intros h. exists (h ++ ["b"]). reflexivity.
Defined.

Lemma setData_getData_witness :
  LocalStorageService.getData (list string) Sample.parse0 "k" None
    (LocalStorageService.setData (list string) String.length Sample.stringify0 Sample.assign_error0
       "k" (Some ["a"; "b"]) Sample.st0)
  = Ok (Some ["a"; "b"]).
Proof.
  apply (setData_getData (list string) String.length Sample.stringify0 Sample.parse0 Sample.assign_error0
           "k" ["a"; "b"] None Sample.st0 "[a,b]").
  - reflexivity.
  - reflexivity.
  - reflexivity.
  - intros _. reflexivity.
Defined.

Lemma setData_other_key_witness :
  LocalStorageService.getData (list string) Sample.parse0 "other" (Some [])
    (LocalStorageService.setData (list string) String.length Sample.stringify0 Sample.assign_error0
       "k" (Some ["a"; "b"]) Sample.st0)
  = LocalStorageService.getData (list string) Sample.parse0 "other" (Some []) Sample.st0.
Proof.
  apply (setData_other_key (list string) String.length Sample.stringify0 Sample.parse0
           Sample.assign_error0 "k" "other" (Some ["a"; "b"]) (Some []) Sample.st0).
  discriminate.
Defined.


Lemma full_storage_never_grows_witness :
  let st' :=
    foldl (λ st op, LocalStorageService.setData (list string) String.length Sample.stringify0
                      Sample.assign_error0 op.1 op.2 st)
      Sample.st_full [("k", Some ["a"]); ("big", None)] in
  LocalStorageService.fullstorage st' = true ∧
  LocalStorageService.storage st' ⊆ LocalStorageService.storage Sample.st_full.
Proof.
  apply (full_storage_never_grows (list string) String.length Sample.stringify0 Sample.assign_error0
           [("k", Some ["a"]); ("big", None)] Sample.st_full).
  vm_compute. reflexivity.
Defined.

Lemma remembered_nodup_witness :
  NoDup (ElectronRemoteContribution.remembered "b" ["a"; "b"; "c"]) ∧
  ElectronRemoteContribution.remembered "b"
    (ElectronRemoteContribution.remembered "b" ["a"; "b"; "c"])
  = ElectronRemoteContribution.remembered "b" ["a"; "b"; "c"].
Proof.
  apply (remembered_nodup "b" ["a"; "b"; "c"]).
  apply (bool_decide_unpack _). vm_compute. exact I.
Defined.

Lemma remember_then_history_witness :
  ∃ st' before,
    ElectronRemoteContribution.remember Sample.service0 Sample.code0 "http://a"
      Sample.st_history
    = Ok st' ∧
    ElectronRemoteContribution.history Sample.service0 Sample.code0 st'
    = Ok (before ++ ["http://a"]) ∧
    before `sublist_of` ["http://a"; "http://b"] ∧
    (length ["http://a"; "http://b"] ≤ S (length before))%nat ∧
    ("http://a" ∉ ["http://a"; "http://b"] → before = ["http://a"; "http://b"]).
Proof.
  apply (remember_then_history String.length Sample.stringify0 Sample.parse0
           Sample.assign_error0 Sample.code0 Sample.code0 "http://a" "http://a"
           "[http://b,http://a]" ["http://a"; "http://b"] ["http://a"; "http://b"]
           Sample.st_history).
  - reflexivity.
  - reflexivity.
  - discriminate.
  - reflexivity.
  - vm_compute. reflexivity.
  - reflexivity.
  - vm_compute. reflexivity.
  - vm_compute. reflexivity.
  - intros _. vm_compute. reflexivity.
Defined.

Lemma remember_when_full_witness :
  ∃ st', ElectronRemoteContribution.remember Sample.service0 Sample.code0 "http://a"
           Sample.st_full = Ok st' ∧ st' = Sample.st_full.
Proof.
  eexists. split; [vm_compute; reflexivity|].
  apply (remember_when_full String.length Sample.stringify0 Sample.parse0 Sample.assign_error0
           Sample.code0 "http://a" Sample.st_full).
  - vm_compute. reflexivity.
  - vm_compute. reflexivity.
Defined.

Example history_moves_to_end :
  match ElectronRemoteContribution.remember Sample.service0 Sample.code0 "http://a"
          Sample.st_history with
  | Ok st' => ElectronRemoteContribution.history Sample.service0 Sample.code0 st'
  | Throws e => Throws e
  end = Ok ["http://b"; "http://a"].
Proof. vm_compute. reflexivity. Qed.

Example merge_keeps_line_below_0 :
  mergeRanges {| getLineCount := 0 |} [mkRange (-1) 0 (-1) 1 []; mkRange 0 0 0 1 []] []
  = [mkRange (-1) 0 (-1) 1 []].
Proof. vm_compute. reflexivity. Qed.

Lemma mergeRanges_lineCount_0_witness :
  mergeRanges {| getLineCount := 0 |} update2 update3 = update3.
Proof.
  apply (proj2 (mergeRanges_lineCount_0 update2 update3)).
  unfold update2, mkRange, start_line.
  apply Forall_cons_2; [simpl; lia|apply Forall_nil_2].
Defined.

(** With no new ranges and a line count of 5, an old range at line -1 is
    kept; the bounds filter drops it. *)
Lemma mergeRanges_empty_update_below_0 :
  mergeRanges {| getLineCount := 5 |} [mkRange (-1) 0 (-1) 1 []] []
  ≠ bounds_filter [mkRange (-1) 0 (-1) 1 []] 5.
Proof. vm_compute. discriminate. Qed.

Lemma mergeRanges_empty_update_witness :
  mergeRanges {| getLineCount := 5 |} (update1 ++ update3) []
  = bounds_filter (update1 ++ update3) 5.
Proof.
  apply (proj2 (proj2 (mergeRanges_empty_update (update1 ++ update3) 5))).
  unfold update1, update3, mkRange, start_line. simpl.
  apply Forall_cons_2; [simpl; lia|].
  apply Forall_cons_2; [simpl; lia|apply Forall_nil_2].
Defined.
